(** * The query optimizer driver and the transactional buffer of tidb

    A shallow embedding of [plan/optimizer.go] (the driver of the optimizer:
    [Optimize], [BuildLogicalPlan], [checkPrivilege], [doOptimize],
    [logicalOptimize], [physicalOptimize], [existsCartesianProduct]) and of
    the key-value buffering layer ([memDbBuffer] of [kv/memdb_buffer.go] with
    its iterators and [WalkMemBuffer], and [Get], [WalkBuffer] and [SaveTo]
    of [BufferStore]), followed by the properties the design document states
    about them and by further properties read off the code.

    Conventions of the embedding.
    - A Go interface or pointer value that may be [nil] is an [option]; a Go
      result pair [(value, error)] is a pair of options, exactly as the code
      returns it, so that "a value and an error at once" can be expressed.
    - Calling a method on a [nil] interface panics; the run of a function
      either returns or panics ([Go.Outcome]).
    - Every call that leaves the file (the plan builder, the privilege
      manager, the eight rewrite rules, the physical planner, ...) is
      recorded, in order, in a call log carried by the [Go.M] monad. The
      collaborators themselves are taken as parameters ([Collaborators]):
      their bodies are outside the two files. *)

From Stdlib Require Import ZArith List String Bool Lia Sorting.Sorted.
From Stdlib Require Import Strings.Byte.
From stdpp Require Import gmap strings sorting.
Import ListNotations.

Local Open Scope string_scope.
Local Open Scope list_scope.

(** ** Go errors: [juju/errors] and [terror] *)

Module errors.

(** The [terror.Error] values that the two packages declare. *)
Inductive terr : Type :=
| ErrCartesianProductUnsupported
| ErrInternal
| ErrNotExist
| ErrCannotSetNilValue
| ErrEntryTooLarge
| ErrTxnTooLarge.

Inductive error : Type :=
| Terror (e : terr)                                  (* the package variable itself *)
| Gen (e : terr) (format : string) (arg : Z)         (* e.Gen(format, arg) *)
| GenByArgs (e : terr) (arg : string)                (* e.GenByArgs(arg) *)
| New (message : string)                             (* errors.New(message) *)
| Foreign (id : nat)                                 (* an error made by a collaborator *)
| Traced (previous : error).                         (* errors.Trace(previous) *)

(** [errors.Trace] annotates a non-nil error with the location of the
    call and hands [nil] back unchanged. *)
Definition Trace (err : option error) : option error :=
  match err with
  | None => None
  | Some e => Some (Traced e)
  end.

(** [errors.Cause]: the error under the annotations. *)
Fixpoint Cause (e : error) : error :=
  match e with
  | Traced previous => Cause previous
  | _ => e
  end.

End errors.
Export errors.

(** ** Runs of Go functions with a call log *)

Module Go.

Inductive Outcome (A : Type) : Type :=
| Returns (a : A)
| Panics.
Arguments Returns {A} a.
Arguments Panics {A}.

Section Calls.
Context {E : Type}.

Definition M (A : Type) : Type := list E -> Outcome A * list E.

Definition ret {A} (a : A) : M A := fun log => (Returns a, log).

Definition bind {A B} (m : M A) (k : A -> M B) : M B :=
  fun log =>
    match m log with
    | (Returns a, log') => k a log'
    | (Panics, log') => (Panics, log')
    end.

(** A recorded call with the result the callee gives. *)
Definition call {A} (e : E) (result : A) : M A :=
  fun log => (Returns result, log ++ [e]).

Definition panic {A} : M A := fun log => (Panics, log).

(** A run from the empty log. *)
Definition run {A} (m : M A) : Outcome A * list E := m [].

(** The error a run returned, if it returned one. *)
Definition returnedError {A Err} (o : Outcome (A * option Err) * list E) : option Err :=
  match fst o with
  | Returns (_, e) => e
  | Panics => None
  end.

(** What a run returned, if it returned. *)
Definition result {A} (o : Outcome A * list E) : option A :=
  match fst o with
  | Returns a => Some a
  | Panics => None
  end.
End Calls.

End Go.

Notation "x <- c1 ;; c2" := (Go.bind c1 (fun x => c2))
  (at level 100, c1 at next level, right associativity).

(** ** Package [plan] *)

Module plan.

(** *** Data model *)

(** Modelled from the spec: the [JoinType] enumeration is declared outside
    the two files. The guard names [InnerJoin], [LeftOuterJoin] and
    [RightOuterJoin]; the design document names the semi-join as an example
    of "a join type outside that set"; the remaining types are [OtherJoin]. *)
Inductive JoinType : Type :=
| InnerJoin
| LeftOuterJoin
| RightOuterJoin
| SemiJoin
| OtherJoin (tag : nat).

(** An equality condition [l = r] between a column of each side. *)
Record ScalarFunction : Type := EQ { lhs : string; rhs : string }.

(** Modelled from the spec: the operators other than the join ("scan,
    selection, projection, join, aggregation, sort, limit, etc."). *)
Inductive Operator : Type :=
| DataSource (table : string)
| Selection
| Projection
| Aggregation
| Sort
| Limit
| Apply
| OtherOperator (tag : nat).

(** A logical plan: a tree whose nodes own their children. Of a node the
    guard reads whether it is a [*LogicalJoin], and then its [JoinType]
    and [EqualConditions], and its [Children()]. *)
#[warnings="-register-all"]
Inductive LogicalPlan : Type :=
| LogicalJoin (tp : JoinType) (EqualConditions : list ScalarFunction)
              (children : list LogicalPlan)
| LogicalOperator (op : Operator) (children : list LogicalPlan).

Definition Children (p : LogicalPlan) : list LogicalPlan :=
  match p with
  | LogicalJoin _ _ children => children
  | LogicalOperator _ children => children
  end.

#[warnings="-register-all"]
Inductive PhysicalPlan : Type :=
| PhysicalOperator (name : string) (children : list PhysicalPlan).

(** A prepared statement to execute ([*Execute]). *)
Record Execute : Type := { Name : string }.

(** What [builder.build] may hand back: the dynamic type decides the two
    type assertions of [Optimize]. *)
Inductive Plan : Type :=
| IsLogical (logic : LogicalPlan)
| IsPhysical (physical : PhysicalPlan)
| IsExecute (execPlan : Execute)
| IsOther (name : string).

Inductive PrivilegeType : Type :=
| SelectPriv
| InsertPriv
| UpdatePriv
| DeletePriv
| OtherPriv (tag : nat).

Record visitInfo : Type :=
  { privilege : PrivilegeType; db : string; table : string; column : string }.

(** [privilege.Manager], by the one method the driver calls. *)
Record Manager : Type :=
  { RequestVerification : string -> string -> string -> PrivilegeType -> bool }.

(** The fields of the [planBuilder] that [Optimize] reads after [build]. *)
Record planBuilder : Type :=
  { err : option error; visitInfos : list visitInfo; optFlag : Z }.

Inductive taskType : Type :=
| rootTaskType
| copTaskType (tag : nat).

Inductive float64 : Type :=
| MaxFloat64
| Float (bits : Z).

Record requiredProp : Type := { taskTp : taskType; expectedCnt : float64 }.

(** A [task], by the two methods [physicalOptimize] calls. *)
Record task : Type := { invalid : bool; plan : option PhysicalPlan }.

(** The rule catalog: the eight types that implement [logicalOptRule]. *)
Inductive logicalOptRule : Type :=
| columnPruner
| projectionEliminater
| buildKeySolver
| decorrelateSolver
| maxMinEliminator
| ppdSolver
| aggregationOptimizer
| pushDownTopNOptimizer.

Definition optRuleList : list logicalOptRule :=
  [ columnPruner; projectionEliminater; buildKeySolver; decorrelateSolver;
    maxMinEliminator; ppdSolver; aggregationOptimizer; pushDownTopNOptimizer ].

(** [uint64] arithmetic wraps. *)
Definition uint64 (z : Z) : Z := z mod 2 ^ 64.

(** [1 << iota], with [iota] the position in the [const] block. *)
Definition flagPrunColumns : Z := uint64 (Z.shiftl 1 0).
Definition flagEliminateProjection : Z := uint64 (Z.shiftl 1 1).
Definition flagBuildKeyInfo : Z := uint64 (Z.shiftl 1 2).
Definition flagDecorrelate : Z := uint64 (Z.shiftl 1 3).
Definition flagMaxMinEliminate : Z := uint64 (Z.shiftl 1 4).
Definition flagPredicatePushDown : Z := uint64 (Z.shiftl 1 5).
Definition flagAggregationOptimize : Z := uint64 (Z.shiftl 1 6).
Definition flagPushDownTopN : Z := uint64 (Z.shiftl 1 7).

(** The calls recorded in the log. [call_existsCartesianProduct] stays in
    the file; it is recorded as well, so that the place of the guard among
    the phases can be stated. *)
Inductive Call : Type :=
| SetPlanID (id : Z)
| builder_build
| pm_RequestVerification (v : visitInfo)
| rule_optimize (rule : logicalOptRule) (logic : option LogicalPlan)
| call_existsCartesianProduct (logic : LogicalPlan)
| logic_preparePossibleProperties (logic : LogicalPlan)
| logic_deriveStats (logic : LogicalPlan)
| logic_findBestTask (logic : LogicalPlan) (prop : requiredProp)
| p_ResolveIndices (p : PhysicalPlan)
| call_eliminatePhysicalProjection (physical : option PhysicalPlan)
| execPlan_optimizePreparedPlan (execPlan : Execute).

Definition M (A : Type) : Type := @Go.M Call A.

(** The code outside the two files, and the process-wide policy
    [AllowCartesianProduct]. A method that updates its receiver in place
    ([ResolveIndices]) gives the updated value. *)
Class Collaborators (Node : Type) : Type :=
  { build : Node -> option Plan * planBuilder;
    GetPrivilegeManager : option Manager;
    optimize : logicalOptRule -> option LogicalPlan -> option LogicalPlan * option error;
    deriveStats : LogicalPlan -> option error;
    findBestTask : LogicalPlan -> requiredProp -> option task * option error;
    ResolveIndices : PhysicalPlan -> PhysicalPlan;
    eliminatePhysicalProjection : option PhysicalPlan -> option PhysicalPlan;
    optimizePreparedPlan : Execute -> option error;
    AllowCartesianProduct : bool }.

(** *** Observations on the call log *)

(** The rules called, in the order of the calls. *)
Fixpoint rulesCalled (log : list Call) : list logicalOptRule :=
  match log with
  | [] => []
  | rule_optimize rule _ :: log' => rule :: rulesCalled log'
  | _ :: log' => rulesCalled log'
  end.



(** The phase a call belongs to, in the order of the state machine of the
    driver: build, privilege check, rule pipeline (or the hook of a prepared
    plan), cartesian guard, cost search, projection elimination. *)
Definition phase (c : Call) : nat :=
  match c with
  | SetPlanID _ | builder_build => 0
  | pm_RequestVerification _ => 1
  | rule_optimize _ _ | execPlan_optimizePreparedPlan _ => 2
  | call_existsCartesianProduct _ => 3
  | logic_preparePossibleProperties _ | logic_deriveStats _
  | logic_findBestTask _ _ | p_ResolveIndices _ => 4
  | call_eliminatePhysicalProjection _ => 5
  end.

Definition inPhaseOrder (log : list Call) : Prop :=
  StronglySorted le (map phase log).

(** A run that, from any log, only adds calls of the phases [lo] to [hi],
    in the order of the phases. *)
Definition staysWithin {A} (lo hi : nat) (m : M A) : Prop :=
  forall log, exists calls,
    snd (m log) = log ++ calls /\
    inPhaseOrder calls /\
    Forall (fun c => lo <= phase c <= hi) calls.

(** The answer of the privilege manager for a visit record. *)
Definition verified (pm : Manager) (v : visitInfo) : bool :=
  RequestVerification pm (db v) (table v) (column v) (privilege v).

(** The property required of the root task. *)
Definition rootProp : requiredProp :=
  {| taskTp := rootTaskType; expectedCnt := MaxFloat64 |}.

(** *** The cartesian guard *)

Definition JoinType_eqb (a b : JoinType) : bool :=
  match a, b with
  | InnerJoin, InnerJoin => true
  | LeftOuterJoin, LeftOuterJoin => true
  | RightOuterJoin, RightOuterJoin => true
  | SemiJoin, SemiJoin => true
  | OtherJoin m, OtherJoin n => (m =? n)%nat
  | _, _ => false
  end.

Fixpoint existsCartesianProduct (p : LogicalPlan) : bool :=
  match p with
  | LogicalJoin tp EqualConditions children =>
      if (length EqualConditions =? 0)%nat
      then JoinType_eqb tp InnerJoin || JoinType_eqb tp LeftOuterJoin
           || JoinType_eqb tp RightOuterJoin
      else existsb existsCartesianProduct children
  | LogicalOperator _ children =>
      existsb existsCartesianProduct children
  end.

(** The guard in the words of the design document, to compare with the
    code: "for every join node with zero equality conditions and join type
    in {inner, left-outer, right-outer}, classify the plan as containing a
    cartesian product". *)
Definition cartesianJoin (p : LogicalPlan) : bool :=
  match p with
  | LogicalJoin InnerJoin [] _ => true
  | LogicalJoin LeftOuterJoin [] _ => true
  | LogicalJoin RightOuterJoin [] _ => true
  | _ => false
  end.

(** Every node of the tree, the root first. *)
Fixpoint nodes (p : LogicalPlan) : list LogicalPlan :=
  p :: flat_map nodes (Children p).

Definition hasCartesianJoin (p : LogicalPlan) : bool :=
  existsb cartesianJoin (nodes p).

(** A join without equality conditions whose type is outside the three. *)
Definition opaqueJoin (p : LogicalPlan) : bool :=
  match p with
  | LogicalJoin tp [] _ =>
      negb (JoinType_eqb tp InnerJoin || JoinType_eqb tp LeftOuterJoin
            || JoinType_eqb tp RightOuterJoin)
  | _ => false
  end.

(** *** The driver *)

Section Driver.
Context {Node : Type} `{Collaborators Node}.

Fixpoint checkPrivilege (pm : Manager) (vs : list visitInfo) : M bool :=
  match vs with
  | [] => Go.ret true
  | v :: vs' =>
      ok <- Go.call (pm_RequestVerification v)
              (RequestVerification pm (db v) (table v) (column v) (privilege v)) ;;
      if negb ok then Go.ret false else checkPrivilege pm vs'
  end.

(** The loop of [logicalOptimize] from position [i] of the catalog on, with
    the variables [logic] and [err] of the function. *)
Fixpoint logicalOptimize_range (i : nat) (rules : list logicalOptRule)
    (flag : Z) (logic : option LogicalPlan) (err : option error)
    : M (option LogicalPlan * option error) :=
  match rules with
  | [] => Go.ret (logic, Trace err)
  | rule :: rules' =>
      if (Z.land flag (uint64 (Z.shiftl 1 (Z.of_nat i))) =? 0)%Z
      then logicalOptimize_range (S i) rules' flag logic err
      else
        r <- Go.call (rule_optimize rule logic) (optimize rule logic) ;;
        match snd r with
        | Some _ => Go.ret (None, Trace (snd r))
        | None => logicalOptimize_range (S i) rules' flag (fst r) (snd r)
        end
  end.

Definition logicalOptimize (flag : Z) (logic : option LogicalPlan)
    : M (option LogicalPlan * option error) :=
  logicalOptimize_range 0 optRuleList flag logic None.

Definition physicalOptimize (logic : option LogicalPlan)
    : M (option PhysicalPlan * option error) :=
  match logic with
  | None => Go.panic
  | Some l =>
      _ <- Go.call (logic_preparePossibleProperties l) tt ;;
      err <- Go.call (logic_deriveStats l) (deriveStats l) ;;
      match err with
      | Some _ => Go.ret (None, Trace err)
      | None =>
          let prop := {| taskTp := rootTaskType; expectedCnt := MaxFloat64 |} in
          r <- Go.call (logic_findBestTask l prop) (findBestTask l prop) ;;
          match snd r with
          | Some _ => Go.ret (None, Trace (snd r))
          | None =>
              match fst r with
              | None => Go.panic
              | Some t =>
                  if invalid t
                  then Go.ret (None, Some (GenByArgs ErrInternal
                         "Can't find a proper physical plan for this query"))
                  else
                    match plan t with
                    | None => Go.panic
                    | Some p =>
                        p' <- Go.call (p_ResolveIndices p) (ResolveIndices p) ;;
                        Go.ret (Some p', None)
                    end
              end
          end
      end
  end.

(** The guard as [doOptimize] evaluates it: [&&] does not evaluate
    [existsCartesianProduct] when the policy allows cartesian products. *)
Definition cartesianGuard (logic : option LogicalPlan) : M bool :=
  if negb AllowCartesianProduct
  then
    match logic with
    | None => Go.panic
    | Some l => Go.call (call_existsCartesianProduct l) (existsCartesianProduct l)
    end
  else Go.ret false.

Definition doOptimize (flag : Z) (logic : option LogicalPlan)
    : M (option PhysicalPlan * option error) :=
  r <- logicalOptimize flag logic ;;
  match snd r with
  | Some _ => Go.ret (None, Trace (snd r))
  | None =>
      rejected <- cartesianGuard (fst r) ;;
      if rejected
      then Go.ret (None, Trace (Some (Terror ErrCartesianProductUnsupported)))
      else
        r' <- physicalOptimize (fst r) ;;
        match snd r' with
        | Some _ => Go.ret (None, Trace (snd r'))
        | None =>
            finalPlan <- Go.call (call_eliminatePhysicalProjection (fst r'))
                           (eliminatePhysicalProjection (fst r')) ;;
            Go.ret (finalPlan, None)
        end
  end.

Definition BuildLogicalPlan (node : Node) : M (option Plan * option error) :=
  _ <- Go.call (SetPlanID 0) tt ;;
  b <- Go.call builder_build (build node) ;;
  match err (snd b) with
  | Some _ => Go.ret (None, Trace (err (snd b)))
  | None => Go.ret (fst b, None)
  end.

Definition Optimize (node : Node) : M (option Plan * option error) :=
  _ <- Go.call (SetPlanID 0) tt ;;
  b <- Go.call builder_build (build node) ;;
  let p := fst b in
  let builder := snd b in
  match err builder with
  | Some _ => Go.ret (None, Trace (err builder))
  | None =>
      granted <- match GetPrivilegeManager with
                 | Some pm => checkPrivilege pm (visitInfos builder)
                 | None => Go.ret true
                 end ;;
      if negb granted
      then Go.ret (None, Some (New "privilege check fail"))
      else
        match p with
        | Some (IsLogical logic) =>
            r <- doOptimize (optFlag builder) (Some logic) ;;
            Go.ret (option_map IsPhysical (fst r), snd r)
        | Some (IsExecute execPlan) =>
            err <- Go.call (execPlan_optimizePreparedPlan execPlan)
                     (optimizePreparedPlan execPlan) ;;
            Go.ret (p, Trace err)
        | _ => Go.ret (p, None)
        end
  end.

(** The pipeline in the words of the design document, to compare with the
    code: the rules of the catalog whose bit is set, in catalog order, each
    on the plan the one before it made; the first error ends the run. *)
Definition enabled (flag : Z) : list logicalOptRule :=
  map snd
    (List.filter (fun ir => Z.testbit flag (Z.of_nat (fst ir)))
       (combine (seq 0 (length optRuleList)) optRuleList)).

Fixpoint applyRules (rules : list logicalOptRule) (logic : option LogicalPlan)
    : M (option LogicalPlan * option error) :=
  match rules with
  | [] => Go.ret (logic, None)
  | rule :: rules' =>
      r <- Go.call (rule_optimize rule logic) (optimize rule logic) ;;
      match snd r with
      | Some e => Go.ret (None, Some (Traced e))
      | None => applyRules rules' (fst r)
      end
  end.

(** Whether the privilege check of [Optimize] lets the query of [node]
    through, and the calls it makes when it does: without a privilege manager
    there is no check. *)
Definition privilegeGranted (node : Node) : bool :=
  match GetPrivilegeManager with
  | Some pm => forallb (verified pm) (visitInfos (snd (build node)))
  | None => true
  end.

Definition privilegeCalls (node : Node) : list Call :=
  match GetPrivilegeManager with
  | Some _ => map pm_RequestVerification (visitInfos (snd (build node)))
  | None => []
  end.

End Driver.

End plan.

(** ** Package [kv] *)

Module kv.

#[global] Instance byte_eq_dec : EqDecision byte := Byte.byte_eq_dec.
#[global] Instance byte_countable : Countable byte :=
  inj_countable Byte.to_N Byte.of_N Byte.of_to_N.

(** A [Key] and a value are byte slices; [nil] and the empty slice are both
    the empty list: [Get], [Set] and [Delete] tell them apart nowhere ([len]
    only). [Seek] and [SeekReverse] test [k == nil]; their key is an
    [option]. *)
Abbreviation Key := (list byte).
Abbreviation Value := (list byte).

(** [memdb.DB] of goleveldb, by its documented behaviour: an ordered map
    from keys to values; [Put] inserts or overwrites and gives no error;
    [Get] gives [leveldb.ErrNotFound] for an absent key ([None] here);
    [Size] is the sum of the lengths of the keys and values, [Len] the
    number of entries. *)
Abbreviation DB := (gmap (list byte) (list byte)).

Definition len {A} (s : list A) : Z := Z.of_nat (length s).

Definition db_Put (d : DB) (k : Key) (v : Value) : DB * option error :=
  (<[k := v]> d, None).

Definition db_Get (d : DB) (k : Key) : option Value := d !! k.

Definition db_Size (d : DB) : Z :=
  map_fold (fun k v n => len k + len v + n)%Z 0%Z d.

Definition db_Len (d : DB) : Z := Z.of_nat (size d).

Record memDbBuffer : Type :=
  { db : DB;
    entrySizeLimit : Z;
    bufferLenLimit : Z;
    bufferSizeLimit : Z }.

Definition with_db (m : memDbBuffer) (d : DB) : memDbBuffer :=
  {| db := d;
     entrySizeLimit := entrySizeLimit m;
     bufferLenLimit := bufferLenLimit m;
     bufferSizeLimit := bufferSizeLimit m |}.

(** The conversion [int(x)] of a [uint64]. *)
Definition int (z : Z) : Z := ((z + 2 ^ 63) mod 2 ^ 64 - 2 ^ 63)%Z.

Definition Size (m : memDbBuffer) : Z := db_Size (db m).

Definition Len (m : memDbBuffer) : Z := db_Len (db m).

Definition memDbBuffer_Get (m : memDbBuffer) (k : Key) : Value * option error :=
  match db_Get (db m) k with
  | None => ([], Some (Terror ErrNotExist))
  | Some v => (v, None)
  end.

(** A method with a pointer receiver gives the buffer after the call and
    its result. *)
Definition memDbBuffer_Set (m : memDbBuffer) (k : Key) (v : Value)
    : memDbBuffer * option error :=
  if (len v =? 0)%Z
  then (m, Trace (Some (Terror ErrCannotSetNilValue)))
  else if (len k + len v >? entrySizeLimit m)%Z
  then (m, Some (Gen ErrEntryTooLarge "entry too large, size: %d" (len k + len v)))
  else
    let put := db_Put (db m) k v in
    let m' := with_db m (fst put) in
    if (Size m' >? bufferSizeLimit m')%Z
    then (m', Some (Gen ErrTxnTooLarge "transaction too large, size:%d" (Size m')))
    else if (Len m' >? int (bufferLenLimit m'))%Z
    then (m', Some (Gen ErrTxnTooLarge "transaction too large, len:%d" (Len m')))
    else (m', Trace (snd put)).

Definition memDbBuffer_Delete (m : memDbBuffer) (k : Key)
    : memDbBuffer * option error :=
  let put := db_Put (db m) k [] in
  (with_db m (fst put), Trace (snd put)).

(** The [Get] of the [Retriever] interface, which [MemBuffer] embeds. *)
Class Retriever (R : Type) : Type :=
  { Get : R -> Key -> Value * option error }.

#[global] Instance memDbBuffer_Retriever : Retriever memDbBuffer :=
  {| Get := memDbBuffer_Get |}.

Record BufferStore (B R : Type) : Type :=
  { MemBuffer : B; r : R }.
Arguments MemBuffer {B R} _.
Arguments r {B R} _.

Inductive Call : Type :=
| MemBuffer_Get (k : Key)
| r_Get (k : Key).

Section BufferStore.
Context {B R : Type} `{Retriever B} `{Retriever R}.

(** [IsErrNotFound] is declared outside the two files. *)
Variable IsErrNotFound : option error -> bool.

Definition BufferStore_Get (s : BufferStore B R) (k : Key)
    : @Go.M Call (Value * option error) :=
  got <- Go.call (MemBuffer_Get k) (Get (MemBuffer s) k) ;;
  got <- (if IsErrNotFound (snd got)
          then Go.call (r_Get k) (Get (r s) k)
          else Go.ret got) ;;
  match snd got with
  | Some _ => Go.ret ([], Trace (snd got))
  | None =>
      if (len (fst got) =? 0)%Z
      then Go.ret ([], Some (Terror ErrNotExist))
      else Go.ret (fst got, None)
  end.

End BufferStore.

(** *** The rest of the buffer: reset, iterators, walks *)

Definition db_Reset (d : DB) : DB := ∅.

Definition memDbBuffer_Reset (m : memDbBuffer) : memDbBuffer :=
  with_db m (db_Reset (db m)).

Definition memDbBuffer_SetCap (m : memDbBuffer) (cap : Z) : memDbBuffer := m.

(** [bytes.Compare], the order of [comparer.DefaultComparer]: byte by byte,
    a proper prefix before the longer slice. *)
Fixpoint bytes_Compare (a b : list byte) : comparison :=
  match a, b with
  | [], [] => Eq
  | [], _ :: _ => Lt
  | _ :: _, [] => Gt
  | x :: a', y :: b' =>
      match N.compare (Byte.to_N x) (Byte.to_N y) with
      | Eq => bytes_Compare a' b'
      | c => c
      end
  end.

Definition Key_ltb (a b : Key) : bool :=
  match bytes_Compare a b with Lt => true | _ => false end.

Definition Key_leb (a b : Key) : bool :=
  match bytes_Compare a b with Gt => false | _ => true end.

Definition entry_le (e1 e2 : Key * Value) : Prop :=
  Is_true (Key_leb (fst e1) (fst e2)).

#[global] Instance entry_le_dec : RelDecision entry_le :=
  fun e1 e2 => Is_true_dec (Key_leb (fst e1) (fst e2)).

(** The entries of the store in the order of its skip list: by key. *)
Definition db_entries (d : DB) : list (Key * Value) :=
  merge_sort entry_le (map_to_list d).

(** The moves on the skip list that the iterator of [memdb] makes: to the
    first node, to the last, to the first node with a key not below [key],
    to the last with a key below [key], and to the node after a node. *)
Definition db_first (d : DB) : option (Key * Value) := head (db_entries d).

Definition db_findLast (d : DB) : option (Key * Value) := head (rev (db_entries d)).

Definition db_findGE (d : DB) (key : Key) : option (Key * Value) :=
  List.find (fun e => Key_leb key (fst e)) (db_entries d).

Definition db_findLT (d : DB) (key : Key) : option (Key * Value) :=
  List.find (fun e => Key_ltb (fst e) key) (rev (db_entries d)).

Definition db_next (d : DB) (node : Key * Value) : option (Key * Value) :=
  List.find (fun e => Key_ltb (fst node) (fst e)) (db_entries d).

(** [util.Range]: [Start] is included, [Limit] is not; [nil] is no bound. *)
Record Range : Type := { Start : option Key; Limit : option Key }.

(** The iterator of [memdb.DB] ([iterator.Iterator] of goleveldb), by its
    documented behaviour. It starts before the first entry; [node] is the
    entry it is on ([None] when it is on none, then [Key] and [Value] are
    [nil]); [forward] is the direction of its last move. The buffer is not
    written to while one of its iterators is in use, so the iterator holds
    the store as it was when made. *)
Record dbIter : Type :=
  { p : DB;
    slice : Range;
    node : option (Key * Value);
    forward : bool;
    released : bool }.

Definition NewIterator (d : DB) (slice : Range) : dbIter :=
  {| p := d; slice := slice; node := None; forward := false; released := false |}.

Definition moved (i : dbIter) (fwd : bool) (n : option (Key * Value)) : dbIter :=
  {| p := p i; slice := slice i; node := n; forward := fwd; released := released i |}.

(** [fill]: the node moved to is kept when it is within the bound of the
    range in the direction of the move. *)
Definition fill (i : dbIter) (fwd : bool) (n : option (Key * Value))
    (checkStart checkLimit : bool) : dbIter * bool :=
  match n with
  | Some e =>
      if (checkLimit &&
          match Limit (slice i) with
          | Some limit => negb (Key_ltb (fst e) limit)
          | None => false
          end)
         || (checkStart &&
             match Start (slice i) with
             | Some start => Key_ltb (fst e) start
             | None => false
             end)
      then (moved i fwd None, false)
      else (moved i fwd (Some e), true)
  | None => (moved i fwd None, false)
  end.

Definition dbIter_First (i : dbIter) : dbIter * bool :=
  if released i then (i, false)
  else
    fill i true
      match Start (slice i) with
      | Some start => db_findGE (p i) start
      | None => db_first (p i)
      end
      false true.

Definition dbIter_Last (i : dbIter) : dbIter * bool :=
  if released i then (i, false)
  else
    fill i false
      match Limit (slice i) with
      | Some limit => db_findLT (p i) limit
      | None => db_findLast (p i)
      end
      true false.

Definition dbIter_Next (i : dbIter) : dbIter * bool :=
  if released i then (i, false)
  else
    match node i with
    | None => if negb (forward i) then dbIter_First i else (i, false)
    | Some e => fill i true (db_next (p i) e) false true
    end.

Definition dbIter_Prev (i : dbIter) : dbIter * bool :=
  if released i then (i, false)
  else
    match node i with
    | None => if forward i then dbIter_Last i else (i, false)
    | Some e => fill i false (db_findLT (p i) (fst e)) true false
    end.

Definition dbIter_Valid (i : dbIter) : bool :=
  match node i with Some _ => true | None => false end.

Definition dbIter_Key (i : dbIter) : Key :=
  match node i with Some e => fst e | None => [] end.

Definition dbIter_Value (i : dbIter) : Value :=
  match node i with Some e => snd e | None => [] end.

Definition dbIter_Release (i : dbIter) : dbIter :=
  if released i then i
  else {| p := ∅; slice := slice i; node := None; forward := forward i;
          released := true |}.

Record memDbIter : Type := { iter : dbIter; reverse : bool }.

Definition memDbIter_Next (i : memDbIter) : memDbIter * option error :=
  if reverse i
  then ({| iter := fst (dbIter_Prev (iter i)); reverse := reverse i |}, None)
  else ({| iter := fst (dbIter_Next (iter i)); reverse := reverse i |}, None).

Definition memDbIter_Valid (i : memDbIter) : bool := dbIter_Valid (iter i).

Definition memDbIter_Key (i : memDbIter) : Key := dbIter_Key (iter i).

Definition memDbIter_Value (i : memDbIter) : Value := dbIter_Value (iter i).

Definition memDbIter_Close (i : memDbIter) : memDbIter :=
  {| iter := dbIter_Release (iter i); reverse := reverse i |}.

Definition memDbBuffer_Seek (m : memDbBuffer) (k : option Key)
    : option memDbIter * option error :=
  let i :=
    match k with
    | None =>
        {| iter := NewIterator (db m) {| Start := None; Limit := None |};
           reverse := false |}
    | Some k =>
        {| iter := NewIterator (db m) {| Start := Some k; Limit := None |};
           reverse := false |}
    end in
  let next := memDbIter_Next i in
  match snd next with
  | Some _ => (None, Trace (snd next))
  | None => (Some (fst next), None)
  end.

Definition memDbBuffer_SeekReverse (m : memDbBuffer) (k : option Key)
    : option memDbIter * option error :=
  let i :=
    match k with
    | None =>
        {| iter := NewIterator (db m) {| Start := None; Limit := None |};
           reverse := true |}
    | Some k =>
        {| iter := NewIterator (db m) {| Start := None; Limit := Some k |};
           reverse := true |}
    end in
  (Some {| iter := fst (dbIter_Last (iter i)); reverse := reverse i |}, None).

(** The [Iterator] interface of the package. *)
Class Iterator (I : Type) : Type :=
  { Iterator_Valid : I -> bool;
    Iterator_Key : I -> Key;
    Iterator_Value : I -> Value;
    Iterator_Next : I -> I * option error;
    Iterator_Close : I -> I }.

#[global] Instance memDbIter_Iterator : Iterator memDbIter :=
  {| Iterator_Valid := memDbIter_Valid;
     Iterator_Key := memDbIter_Key;
     Iterator_Value := memDbIter_Value;
     Iterator_Next := memDbIter_Next;
     Iterator_Close := memDbIter_Close |}.

(** The [Seek] and [SeekReverse] of the [Retriever] interface. *)
Class Seeker (B I : Type) : Type :=
  { Seek : B -> option Key -> option I * option error;
    SeekReverse : B -> option Key -> option I * option error }.

#[global] Instance memDbBuffer_Seeker : Seeker memDbBuffer memDbIter :=
  {| Seek := memDbBuffer_Seek; SeekReverse := memDbBuffer_SeekReverse |}.

(** The [Mutator] interface. *)
Class Mutator (M : Type) : Type :=
  { Mutator_Set : M -> Key -> Value -> M * option error;
    Mutator_Delete : M -> Key -> M * option error }.

#[global] Instance memDbBuffer_Mutator : Mutator memDbBuffer :=
  {| Mutator_Set := memDbBuffer_Set; Mutator_Delete := memDbBuffer_Delete |}.

(** Entries in strictly ascending, and in strictly descending, order of
    their keys. *)
Definition ascending (entries : list (Key * Value)) : Prop :=
  StronglySorted (fun e1 e2 => Key_ltb (fst e1) (fst e2) = true) entries.

Definition descending (entries : list (Key * Value)) : Prop :=
  StronglySorted (fun e1 e2 => Key_ltb (fst e2) (fst e1) = true) entries.

(** A forward iterator on entry [e] of the store ([None]: past the end), as
    [Seek] makes it, and a backward one, as [SeekReverse] makes it. *)
Definition forwardIter (d : DB) (start : option Key) (e : option (Key * Value))
    : memDbIter :=
  {| iter := {| p := d; slice := {| Start := start; Limit := None |}; node := e;
                forward := true; released := false |};
     reverse := false |}.

Definition backwardIter (d : DB) (limit : option Key) (e : option (Key * Value))
    : memDbIter :=
  {| iter := {| p := d; slice := {| Start := None; Limit := limit |}; node := e;
                forward := false; released := false |};
     reverse := true |}.

(** The keys from [start] on ([nil]: every key), and the keys below
    [limit] ([nil]: every key). *)
Definition fromStart (start : option Key) (e : Key * Value) : bool :=
  match start with
  | Some k => Key_leb k (fst e)
  | None => true
  end.

Definition belowLimit (limit : option Key) (e : Key * Value) : bool :=
  match limit with
  | Some k => Key_ltb (fst e) k
  | None => true
  end.

Section Walk.
Context {B I St : Type} `{Iterator I} `{Seeker B I}.

(** The [for iter.Valid()] loop of [WalkMemBuffer]. The callback works on a
    state [St] of its own (what its closure captures) and does not write to
    the buffer walked. [None] is a loop that [fuel] rounds did not end. *)
Fixpoint WalkMemBuffer_loop (fuel : nat) (iter : I)
    (f : Key -> Value -> St -> St * option error) (st : St)
    : option (St * option error) :=
  match fuel with
  | O => None
  | S fuel' =>
      if Iterator_Valid iter
      then
        let called := f (Iterator_Key iter) (Iterator_Value iter) st in
        match snd called with
        | Some _ => Some (fst called, Trace (snd called))
        | None =>
            let next := Iterator_Next iter in
            match snd next with
            | Some _ => Some (fst called, Trace (snd next))
            | None => WalkMemBuffer_loop fuel' (fst next) f (fst called)
            end
        end
      else Some (st, None)
  end.

Definition WalkMemBuffer (fuel : nat) (memBuf : B)
    (f : Key -> Value -> St -> St * option error) (st : St)
    : option (Go.Outcome (St * option error)) :=
  let sought := Seek memBuf None in
  match snd sought with
  | Some _ => Some (Go.Returns (st, Trace (snd sought)))
  | None =>
      match fst sought with
      | None => Some Go.Panics
      | Some iter =>
          match WalkMemBuffer_loop fuel iter f st with
          | Some r => Some (Go.Returns r)
          | None => None
          end
      end
  end.

End Walk.

Section SaveTo.
Context {B R I M : Type} `{Iterator I} `{Seeker B I} `{Mutator M}.

Definition traced {A} (r : option (Go.Outcome (A * option error)))
    : option (Go.Outcome (A * option error)) :=
  match r with
  | Some (Go.Returns r) => Some (Go.Returns (fst r, Trace (snd r)))
  | other => other
  end.

Definition BufferStore_WalkBuffer {St} (fuel : nat) (s : BufferStore B R)
    (f : Key -> Value -> St -> St * option error) (st : St)
    : option (Go.Outcome (St * option error)) :=
  traced (WalkMemBuffer fuel (MemBuffer s) f st).

(** The callback of [SaveTo]: a value of length zero is a deletion. *)
Definition save (k : Key) (v : Value) (m : M) : M * option error :=
  if (len v =? 0)%Z
  then (fst (Mutator_Delete m k), Trace (snd (Mutator_Delete m k)))
  else (fst (Mutator_Set m k v), Trace (snd (Mutator_Set m k v))).

Definition BufferStore_SaveTo (fuel : nat) (s : BufferStore B R) (m : M)
    : option (Go.Outcome (M * option error)) :=
  traced (BufferStore_WalkBuffer fuel s save m).

End SaveTo.

(** The walk in words: the callback on the entries in order, up to the
    first one on which it fails. *)
Fixpoint visit {St} (f : Key -> Value -> St -> St * option error)
    (entries : list (Key * Value)) (st : St) : St * option error :=
  match entries with
  | [] => (st, None)
  | e :: entries' =>
      match snd (f (fst e) (snd e) st) with
      | Some err => (fst (f (fst e) (snd e) st), Some (Traced err))
      | None => visit f entries' (fst (f (fst e) (snd e) st))
      end
  end.

End kv.

(** ** Concrete collaborators and the scenarios of the design document *)

Module Scenario.
Import plan.

(** A query stands for itself: the plan the builder makes of it, the visit
    records it gathers and the rule flags it selects. *)
Record Query : Type :=
  { built : option Plan; visits : list visitInfo; flags : Z;
    failure : option error }.

Definition scan (t : string) : LogicalPlan := LogicalOperator (DataSource t) [].

Fixpoint mentions (op : Operator -> bool) (p : LogicalPlan) : bool :=
  match p with
  | LogicalJoin _ _ children => existsb (mentions op) children
  | LogicalOperator o children => op o || existsb (mentions op) children
  end.

Definition isApply (o : Operator) : bool :=
  match o with Apply => true | _ => false end.

Definition isOtherOperator (o : Operator) : bool :=
  match o with OtherOperator _ => true | _ => false end.

(** A column pruner that drops a pass-through projection at the root, a
    decorrelator that fails on a plan with an [Apply] while still handing
    back a plan, and six rules that leave the plan alone. *)
Definition rules (rule : logicalOptRule) (logic : option LogicalPlan)
    : option LogicalPlan * option error :=
  match rule, logic with
  | columnPruner, Some (LogicalOperator Projection [child]) => (Some child, None)
  | decorrelateSolver, Some p =>
      if mentions isApply p then (Some p, Some (Foreign 7)) else (Some p, None)
  | _, _ => (logic, None)
  end.

Fixpoint implement (p : LogicalPlan) : PhysicalPlan :=
  match p with
  | LogicalJoin _ _ children => PhysicalOperator "HashJoin" (map implement children)
  | LogicalOperator (DataSource t) children =>
      PhysicalOperator ("TableScan " ++ t)%string (map implement children)
  | LogicalOperator _ children => PhysicalOperator "Operator" (map implement children)
  end.

(** No physical implementation for an operator of unknown kind. *)
Definition search (p : LogicalPlan) (prop : requiredProp) : option task * option error :=
  if mentions isOtherOperator p
  then (Some {| invalid := true; plan := None |}, None)
  else (Some {| invalid := false; plan := Some (implement p) |}, None).

Definition resolve (p : PhysicalPlan) : PhysicalPlan :=
  match p with
  | PhysicalOperator name children => PhysicalOperator (name ++ " [resolved]")%string children
  end.

(** A privilege manager that denies everything on table [T]. *)
Definition denyT : Manager :=
  {| RequestVerification := fun d t c p => negb (String.eqb t "T") |}.

Definition collaborators (allow : bool) (pm : option Manager) : Collaborators Query :=
  {| build := fun q =>
       (built q, {| err := failure q; visitInfos := visits q; optFlag := flags q |});
     GetPrivilegeManager := pm;
     optimize := rules;
     deriveStats := fun _ => None;
     findBestTask := search;
     ResolveIndices := resolve;
     eliminatePhysicalProjection := fun p => p;
     optimizePreparedPlan := fun _ => None;
     AllowCartesianProduct := allow |}.

Definition ab : list LogicalPlan := [scan "A"; scan "B"].

(** Scenario A: an inner join of two scans without equality conditions. *)
Definition cartesianAB : LogicalPlan := LogicalJoin InnerJoin [] ab.

(** Scenario B: the same join on [A.id = B.id]. *)
Definition equiAB : LogicalPlan :=
  LogicalJoin InnerJoin [ {| lhs := "A.id"; rhs := "B.id" |} ] ab.

(** [SELECT * FROM T WHERE EXISTS (SELECT 1 FROM A, B WHERE A.x > T.x)]: a
    semi-join without equality conditions over the cartesian join of
    scenario A. *)
Definition semiOverCartesian : LogicalPlan :=
  LogicalJoin SemiJoin [] [scan "T"; cartesianAB].

Definition selectOn (t : string) : visitInfo :=
  {| privilege := SelectPriv; db := "test"; table := t; column := "" |}.

Definition query (p : LogicalPlan) (f : Z) : Query :=
  {| built := Some (IsLogical p); visits := []; flags := f; failure := None |}.

(** A query that needs the privilege of record [v]. *)
Definition visiting (v : visitInfo) : Query :=
  {| built := Some (IsLogical (scan (table v))); visits := [v];
     flags := flagPrunColumns; failure := None |}.

(** Scenario C: a query that reads table [T]. *)
Definition readsT : Query :=
  {| built := Some (IsLogical (scan "T")); visits := [selectOn "T"];
     flags := flagPrunColumns; failure := None |}.



(** Scenario D: a pass-through projection over a scan. *)
Definition projected : LogicalPlan := LogicalOperator Projection [scan "A"].

(** A plan on which the decorrelator fails. *)
Definition correlated : LogicalPlan := LogicalOperator Apply ab.


Definition malformed : Query :=
  {| built := None; visits := []; flags := 0; failure := Some (Foreign 3) |}.

(** A snapshot that holds the committed pairs, as the retriever under a
    buffer store. *)
Record snapshot : Type := { committed : gmap (list byte) (list byte) }.

#[global] Instance snapshot_Retriever : kv.Retriever snapshot :=
  {| kv.Get := fun s k =>
       match committed s !! k with
       | Some v => (v, None)
       | None => ([], Some (Terror ErrNotExist))
       end |}.

Definition IsErrNotFound (err : option error) : bool :=
  match err with
  | Some e => match Cause e with Terror ErrNotExist => true | _ => false end
  | None => false
  end.

Definition emptyBuffer : kv.memDbBuffer :=
  {| kv.db := ∅; kv.entrySizeLimit := 6291456; kv.bufferLenLimit := 300000;
     kv.bufferSizeLimit := 104857600 |}.

Definition k1 : list byte := [x6b; x31].
Definition k2 : list byte := [x6b; x32].
Definition v1 : list byte := [x76].

(** A buffer that holds [k1], one in which [k1] is deleted, and a store
    over a snapshot that still holds [k1]. *)
Definition holdsK1 : kv.memDbBuffer := fst (kv.memDbBuffer_Set emptyBuffer k1 v1).

Definition deletedK1 : kv.memDbBuffer := fst (kv.memDbBuffer_Delete emptyBuffer k1).

Definition store (m : kv.memDbBuffer) : kv.BufferStore kv.memDbBuffer snapshot :=
  {| kv.MemBuffer := m; kv.r := {| committed := {[ k1 := v1 ]} |} |}.

(** The policies: cartesian products disallowed or allowed (the default),
    without and with a privilege manager. *)
Definition strict : Collaborators Query := collaborators false None.

Definition permissive : Collaborators Query := collaborators true None.

Definition guarded : Collaborators Query := collaborators true (Some denyT).

(** The calls of the eight rules on a plan that they leave alone. *)
Definition allRules (p : LogicalPlan) : list Call :=
  map (fun rule => rule_optimize rule (Some p)) optRuleList.

(** Collaborators that fail: the hook of a prepared plan, the statistics,
    and the search, which still hands a task back. *)
Definition failingHook : Collaborators Query :=
  {| build := fun q =>
       (built q, {| err := failure q; visitInfos := visits q; optFlag := flags q |});
     GetPrivilegeManager := Some denyT;
     optimize := rules;
     deriveStats := fun _ => None;
     findBestTask := search;
     ResolveIndices := resolve;
     eliminatePhysicalProjection := fun p => p;
     optimizePreparedPlan := fun _ => Some (Foreign 9);
     AllowCartesianProduct := true |}.

Definition failingStats : Collaborators Query :=
  {| build := fun q =>
       (built q, {| err := failure q; visitInfos := visits q; optFlag := flags q |});
     GetPrivilegeManager := None;
     optimize := rules;
     deriveStats := fun _ => Some (Foreign 11);
     findBestTask := search;
     ResolveIndices := resolve;
     eliminatePhysicalProjection := fun p => p;
     optimizePreparedPlan := fun _ => None;
     AllowCartesianProduct := true |}.

Definition failingSearch : Collaborators Query :=
  {| build := fun q =>
       (built q, {| err := failure q; visitInfos := visits q; optFlag := flags q |});
     GetPrivilegeManager := None;
     optimize := rules;
     deriveStats := fun _ => None;
     findBestTask := fun p prop => (fst (search p prop), Some (Foreign 12));
     ResolveIndices := resolve;
     eliminatePhysicalProjection := fun p => p;
     optimizePreparedPlan := fun _ => None;
     AllowCartesianProduct := true |}.

(** A prepared statement that reads [U], and an insert into [U]. *)
Definition prepared : Query :=
  {| built := Some (IsExecute {| Name := "stmt" |}); visits := [selectOn "U"];
     flags := 0; failure := None |}.

Definition insertion : Query :=
  {| built := Some (IsOther "Insert"); visits := [selectOn "U"];
     flags := 0; failure := None |}.

(** A selection over an equality join of the cartesian join of scenario A
    with a scan. *)
Definition nested : LogicalPlan :=
  LogicalOperator Selection
    [LogicalJoin LeftOuterJoin [ {| lhs := "A.id"; rhs := "C.id" |} ]
       [cartesianAB; scan "C"]].

(** A buffer with room for three bytes an entry, one entry and a hundred
    bytes, and one whose limit on the entries is the greatest [uint64]. *)
Definition tight : kv.memDbBuffer :=
  {| kv.db := ∅; kv.entrySizeLimit := 3; kv.bufferLenLimit := 1;
     kv.bufferSizeLimit := 100 |}.

Definition unlimited : kv.memDbBuffer :=
  {| kv.db := ∅; kv.entrySizeLimit := 6291456; kv.bufferLenLimit := 2 ^ 64 - 1;
     kv.bufferSizeLimit := 104857600 |}.

(** A buffer that holds [b], [az] and [0xff], and in which [a] is deleted. *)
Definition sample : kv.memDbBuffer :=
  fst (kv.memDbBuffer_Set
         (fst (kv.memDbBuffer_Delete
                 (fst (kv.memDbBuffer_Set
                         (fst (kv.memDbBuffer_Set emptyBuffer [x62] [x01]))
                         [x61; x7a] [x02]))
                 [x61]))
         [xff] [x03; x04]).

(** A callback that records the pairs it is called on, and one that fails
    on the key [b]. *)
Definition record (k v : list byte) (seen : list (list byte * list byte))
    : list (list byte * list byte) * option error :=
  (seen ++ [(k, v)], None).

Definition stopAtB (k v : list byte) (seen : list (list byte * list byte))
    : list (list byte * list byte) * option error :=
  match k with
  | [x62] => (seen, Some (Foreign 5))
  | _ => (seen ++ [(k, v)], None)
  end.

End Scenario.

(** * Properties *)

Import plan.

(** ** The cartesian guard *)

(** Induction on a plan with the hypothesis for every child. *)
Lemma LogicalPlan_children_ind (P : LogicalPlan -> Prop) :
  (forall tp eqs children, Forall P children -> P (LogicalJoin tp eqs children)) ->
  (forall op children, Forall P children -> P (LogicalOperator op children)) ->
  forall p, P p.
Proof.
  intros Hjoin Hop. fix IH 1.
  intros [tp eqs children | op children]; [apply Hjoin | apply Hop];
    induction children as [| c cs IHcs]; constructor; auto.
Qed.

Lemma existsb_flat_map {A B} (f : B -> bool) (g : A -> list B) (l : list A) :
  existsb f (flat_map g l) = existsb (fun x => existsb f (g x)) l.
Proof.
  induction l as [| x l IHl]; simpl; [reflexivity |].
  now rewrite existsb_app, IHl.
Qed.

Lemma hasCartesianJoin_unfold p :
  hasCartesianJoin p = cartesianJoin p || existsb hasCartesianJoin (Children p).
Proof.
  unfold hasCartesianJoin at 1. destruct p; simpl; now rewrite existsb_flat_map.
Qed.

Lemma existsb_opaqueJoin_unfold p :
  existsb opaqueJoin (nodes p) =
  opaqueJoin p || existsb (fun c => existsb opaqueJoin (nodes c)) (Children p).
Proof. destruct p; simpl; now rewrite existsb_flat_map. Qed.

Lemma existsb_impl {A} (f g : A -> bool) (l : list A) :
  Forall (fun x => f x = true -> g x = true) l ->
  existsb f l = true -> existsb g l = true.
Proof.
  induction 1 as [| x l Hx _ IHl]; simpl; [easy |].
  rewrite !orb_true_iff. tauto.
Qed.

Lemma existsb_agree {A} (f g : A -> bool) (h : A -> bool) (l : list A) :
  Forall (fun x => h x = false -> f x = g x) l ->
  existsb h l = false -> existsb f l = existsb g l.
Proof.
  induction 1 as [| x l Hx _ IHl]; simpl; [easy |].
  rewrite orb_false_iff. intros [Hh Hl]. now rewrite Hx, IHl.
Qed.

(** A join that the guard classifies by itself. *)
Lemma existsCartesianProduct_join_without_equality tp children :
  existsCartesianProduct (LogicalJoin tp [] children) =
  match tp with
  | InnerJoin | LeftOuterJoin | RightOuterJoin => true
  | _ => false
  end.
Proof. now destruct tp. Qed.

(** A join with an equality condition is never a match by itself: the
    answer is the answer for its children. *)
Lemma existsCartesianProduct_join_with_equality tp c cs children :
  existsCartesianProduct (LogicalJoin tp (c :: cs) children) =
  existsb existsCartesianProduct children.
Proof. reflexivity. Qed.

(** X1. What the guard finds is there: when [existsCartesianProduct]
    answers true, some join of the tree has no equality condition and is an
    inner, left-outer or right-outer join. *)
Lemma existsCartesianProduct_sound p :
  existsCartesianProduct p = true -> hasCartesianJoin p = true.
Proof.
  induction p as [tp eqs children IH | op children IH] using LogicalPlan_children_ind;
    rewrite hasCartesianJoin_unfold; simpl Children.
  - destruct eqs as [| c cs].
    + rewrite existsCartesianProduct_join_without_equality.
      destruct tp; simpl; congruence.
    + rewrite existsCartesianProduct_join_with_equality.
      intros Hc. apply orb_true_iff. right. now apply (existsb_impl _ _ _ IH).
  - intros Hc. apply orb_true_iff. right. now apply (existsb_impl _ _ _ IH).
Qed.

(** X2. The guard is exact on the trees without a join that has no
    equality condition and a type outside the three: on those it answers
    true exactly when some join of the tree is a cartesian one. *)
Lemma existsCartesianProduct_exact p :
  existsb opaqueJoin (nodes p) = false ->
  existsCartesianProduct p = hasCartesianJoin p.
Proof.
  induction p as [tp eqs children IH | op children IH] using LogicalPlan_children_ind;
    rewrite hasCartesianJoin_unfold, existsb_opaqueJoin_unfold; simpl Children;
    rewrite orb_false_iff; intros [Hp Hcs].
  - destruct eqs as [| c cs].
    + rewrite existsCartesianProduct_join_without_equality.
      destruct tp; simpl in *; try reflexivity; discriminate.
    + rewrite existsCartesianProduct_join_with_equality.
      replace (cartesianJoin (LogicalJoin tp (c :: cs) children)) with false
        by now destruct tp.
      simpl. now apply (existsb_agree _ _ _ _ IH).
  - replace (cartesianJoin (LogicalOperator op children)) with false by reflexivity.
    simpl. now apply (existsb_agree _ _ _ _ IH).
Qed.

(** C1. The guard does not examine every join of the tree: under a join
    without equality conditions whose type is outside inner, left-outer and
    right-outer, the walk stops, and a cartesian join below it is missed.
    The plan of [SELECT * FROM T WHERE EXISTS (SELECT 1 FROM A, B WHERE
    A.x > T.x)] holds the cartesian join of [A] and [B], and
    [existsCartesianProduct] answers false. *)
Theorem existsCartesianProduct_misses_join_under_semi_join :
  hasCartesianJoin Scenario.semiOverCartesian = true /\
  existsCartesianProduct Scenario.cartesianAB = true /\
  In Scenario.cartesianAB (nodes Scenario.semiOverCartesian) /\
  existsCartesianProduct Scenario.semiOverCartesian = false.
Proof.
  repeat split; try reflexivity. simpl. auto.
Qed.

(** ** The rule pipeline *)

Lemma land_pow2 (flag i : Z) :
  (0 <= i)%Z ->
  Z.land flag (2 ^ i) = if Z.testbit flag i then (2 ^ i)%Z else 0%Z.
Proof.
  intros Hi. apply Z.bits_inj'. intros n Hn.
  rewrite Z.land_spec, Z.pow2_bits_eqb by assumption.
  destruct (Z.eqb_spec i n) as [-> | Hne].
  - destruct (Z.testbit flag n) eqn:Hbit; simpl.
    + now rewrite Z.pow2_bits_true.
    + now rewrite Z.bits_0.
  - rewrite andb_false_r.
    destruct (Z.testbit flag i); [now rewrite Z.pow2_bits_false | now rewrite Z.bits_0].
Qed.

(** The test of the loop reads bit [i] of the mask, for the positions that
    a [uint64] has. *)
Lemma flag_test (flag : Z) (i : nat) :
  (i < 64)%nat ->
  (Z.land flag (uint64 (Z.shiftl 1 (Z.of_nat i))) =? 0)%Z
  = negb (Z.testbit flag (Z.of_nat i)).
Proof.
  intros Hi. unfold uint64.
  rewrite Z.shiftl_1_l.
  assert (Hlt : (0 < 2 ^ Z.of_nat i < 2 ^ 64)%Z).
  { split; [apply Z.pow_pos_nonneg; lia | apply Z.pow_lt_mono_r; lia]. }
  rewrite Z.mod_small by lia.
  rewrite land_pow2 by lia.
  destruct (Z.testbit flag (Z.of_nat i)); simpl; [| reflexivity].
  apply Z.eqb_neq. lia.
Qed.

Section Pipeline.
Context {Node : Type} `{Collaborators Node}.

Lemma logicalOptimize_range_applyRules rules :
  forall i flag logic log,
    (i + length rules <= 64)%nat ->
    logicalOptimize_range i rules flag logic None log =
    applyRules
      (map snd (List.filter (fun ir => Z.testbit flag (Z.of_nat (fst ir)))
                  (combine (seq i (length rules)) rules)))
      logic log.
Proof.
  induction rules as [| rule rules IH]; intros i flag logic log Hi; simpl.
  - reflexivity.
  - simpl in Hi. rewrite flag_test by lia.
    destruct (Z.testbit flag (Z.of_nat i)); simpl.
    + unfold Go.bind, Go.call.
      destruct (optimize rule logic) as [q [e |]]; simpl; [reflexivity |].
      apply IH. lia.
    + apply IH. lia.
Qed.

Lemma rulesCalled_app log1 log2 :
  rulesCalled (log1 ++ log2) = rulesCalled log1 ++ rulesCalled log2.
Proof.
  induction log1 as [| c log1 IH]; simpl; [reflexivity |].
  destruct c; simpl; now rewrite IH.
Qed.

(** A run of the rules never panics and records calls of rules only. *)
Lemma applyRules_log rules :
  forall logic log,
  exists r calls,
    applyRules rules logic log = (Go.Returns r, log ++ calls) /\
    Forall (fun c => phase c = 2%nat) calls /\
    (snd r = None -> rulesCalled calls = rules).
Proof.
  induction rules as [| rule rules IH]; intros logic log; simpl.
  - exists (logic, None), []. rewrite app_nil_r. repeat split; auto.
  - unfold Go.bind, Go.call.
    destruct (optimize rule logic) as [q [e |]] eqn:Hrule; simpl.
    + exists (None, Some (Traced e)), [rule_optimize rule logic].
      repeat split; [repeat constructor | discriminate].
    + destruct (IH q (log ++ [rule_optimize rule logic])) as (r & calls & Hrun & Hphase & Hcalled).
      exists r, (rule_optimize rule logic :: calls).
      rewrite Hrun, <- app_assoc. repeat split.
      * constructor; [reflexivity | assumption].
      * intros Hr. simpl. now rewrite Hcalled.
Qed.

Lemma applyRules_app before after :
  forall logic log,
    applyRules (before ++ after) logic log =
    match applyRules before logic log with
    | (Go.Returns (q, None), log1) => applyRules after q log1
    | other => other
    end.
Proof.
  induction before as [| rule before IH]; intros logic log; simpl.
  - reflexivity.
  - unfold Go.bind, Go.call.
    destruct (optimize rule logic) as [q [e |]]; simpl; [reflexivity | apply IH].
Qed.

Lemma applyRules_never_both rules :
  forall logic log q e log',
    applyRules rules logic log = (Go.Returns (q, Some e), log') -> q = None.
Proof.
  induction rules as [| rule rules IH]; intros logic log q e log'; simpl.
  - unfold Go.ret. congruence.
  - unfold Go.bind, Go.call.
    destruct (optimize rule logic) as [q' [e' |]]; simpl.
    + unfold Go.ret. congruence.
    + apply IH.
Qed.

Lemma logicalOptimize_applyRules flag logic log :
  logicalOptimize flag logic log = applyRules (enabled flag) logic log.
Proof.
  unfold logicalOptimize, enabled.
  apply logicalOptimize_range_applyRules. simpl. lia.
Qed.

Lemma enabled_single_bit k rule :
  nth_error optRuleList k = Some rule ->
  enabled (2 ^ Z.of_nat k) = [rule].
Proof.
  intros Hk.
  do 8 (destruct k as [| k]; [inversion Hk; reflexivity |]).
  destruct k; discriminate Hk.
Qed.

(** C2. For every flag bitmask and logical plan, [logicalOptimize] applies
    exactly the rules of the catalog whose bit is set, in catalog order, each
    on the plan that the rule applied before it produced; with only bit [k]
    set it applies rule [k] of the catalog and no other; the eight flags
    are the bits in the order of the catalog. *)
Theorem logicalOptimize_applies_the_enabled_rules_in_catalog_order :
  (forall flag logic log,
      logicalOptimize flag logic log = applyRules (enabled flag) logic log) /\
  (forall k rule logic log,
      nth_error optRuleList k = Some rule ->
      logicalOptimize (2 ^ Z.of_nat k) logic log =
      (r <- Go.call (rule_optimize rule logic) (optimize rule logic) ;;
       match snd r with
       | Some e => Go.ret (None, Some (Traced e))
       | None => Go.ret (fst r, None)
       end) log) /\
  map enabled
    [ flagPrunColumns; flagEliminateProjection; flagBuildKeyInfo; flagDecorrelate;
      flagMaxMinEliminate; flagPredicatePushDown; flagAggregationOptimize;
      flagPushDownTopN ]
  = map (fun rule => [rule]) optRuleList.
Proof.
  split; [| split].
  - apply logicalOptimize_applyRules.
  - intros k rule logic log Hk.
    rewrite logicalOptimize_applyRules, (enabled_single_bit k rule Hk). reflexivity.
  - reflexivity.
Qed.

(** C6. If a rule that [logicalOptimize] applies returns an error, the run
    ends there: the result is [(nil, error)] with that error under
    [errors.Trace], the rules called are the enabled ones up to the failing
    one and no later one; and [logicalOptimize] never returns a plan
    together with an error. *)
Theorem logicalOptimize_aborts_on_the_first_error :
  forall flag logic log,
    (forall q e log',
        logicalOptimize flag logic log = (Go.Returns (q, Some e), log') ->
        q = None) /\
    (forall before rule after q log1 e,
        enabled flag = before ++ rule :: after ->
        applyRules before logic log = (Go.Returns (q, None), log1) ->
        snd (optimize rule q) = Some e ->
        logicalOptimize flag logic log =
          (Go.Returns (None, Some (Traced e)), log1 ++ [rule_optimize rule q]) /\
        rulesCalled (log1 ++ [rule_optimize rule q]) =
          rulesCalled log ++ before ++ [rule]).
Proof.
  intros flag logic log. split.
  - intros q e log'. rewrite logicalOptimize_applyRules. apply applyRules_never_both.
  - intros before rule after q log1 e Hflag Hbefore Hfail. split.
    + rewrite logicalOptimize_applyRules, Hflag, applyRules_app, Hbefore. simpl.
      unfold Go.bind, Go.call. now rewrite Hfail.
    + destruct (applyRules_log before logic log) as (r & calls & Hrun & _ & Hcalled).
      rewrite Hbefore in Hrun. inversion Hrun as [[Hr Hlog]]. subst r log1.
      rewrite !rulesCalled_app, (Hcalled eq_refl). simpl.
      now rewrite <- app_assoc.
Qed.

End Pipeline.

(** ** The physical planner and the guard in [doOptimize] *)

Section Physical.
Context {Node : Type} `{Collaborators Node}.




End Physical.

(** ** The order of the phases *)

Lemma StronglySorted_app (l1 l2 : list nat) :
  StronglySorted le l1 -> StronglySorted le l2 ->
  (forall x y, In x l1 -> In y l2 -> x <= y) ->
  StronglySorted le (l1 ++ l2).
Proof.
  induction 1 as [| x l1 Hsorted IH Hx]; intros H2 Hle; simpl; [assumption |].
  constructor.
  - apply IH; [assumption |]. intros a b Ha Hb. apply Hle; simpl; auto.
  - apply Forall_app. split; [assumption |].
    apply List.Forall_forall. intros y Hy. apply Hle; simpl; auto.
Qed.

Section Phases.
Context {A B : Type}.

Lemma staysWithin_ret lo hi (a : A) : staysWithin lo hi (Go.ret a).
Proof.
  intros log. exists []. rewrite app_nil_r.
  repeat split; constructor.
Qed.

Lemma staysWithin_panic lo hi : staysWithin lo hi (@Go.panic Call A).
Proof.
  intros log. exists []. rewrite app_nil_r.
  repeat split; constructor.
Qed.

Lemma staysWithin_call lo hi c (a : A) :
  lo <= phase c <= hi -> staysWithin lo hi (Go.call c a).
Proof.
  intros Hc log. exists [c]. repeat split.
  - repeat constructor.
  - constructor; [assumption | constructor].
Qed.

Lemma staysWithin_weaken lo hi lo' hi' (m : M A) :
  lo' <= lo -> hi <= hi' -> staysWithin lo hi m -> staysWithin lo' hi' m.
Proof.
  intros Hlo Hhi Hm log. destruct (Hm log) as (calls & Hlog & Hsorted & Hphase).
  exists calls. repeat split; try assumption.
  eapply List.Forall_impl; [| exact Hphase]. simpl. intros c Hc. lia.
Qed.

Lemma staysWithin_bind lo mid hi (m : M A) (k : A -> M B) :
  lo <= mid <= hi ->
  staysWithin lo mid m -> (forall a, staysWithin mid hi (k a)) ->
  staysWithin lo hi (Go.bind m k).
Proof.
  intros Hmid Hm Hk log. unfold Go.bind.
  destruct (Hm log) as (calls1 & Hlog1 & Hsorted1 & Hphase1).
  destruct (m log) as [[a |] log1]; simpl in Hlog1; subst log1.
  - destruct (Hk a (log ++ calls1)) as (calls2 & Hlog2 & Hsorted2 & Hphase2).
    exists (calls1 ++ calls2). rewrite Hlog2, app_assoc. repeat split.
    + unfold inPhaseOrder. rewrite map_app. apply StronglySorted_app; try assumption.
      intros x y Hx Hy.
      apply in_map_iff in Hx as (c1 & <- & Hc1). apply in_map_iff in Hy as (c2 & <- & Hc2).
      rewrite List.Forall_forall in Hphase1, Hphase2.
      specialize (Hphase1 c1 Hc1). specialize (Hphase2 c2 Hc2). lia.
    + apply Forall_app. split; (eapply List.Forall_impl; [| eassumption]); simpl; intros c Hc; lia.
  - exists calls1. repeat split; try assumption.
    eapply List.Forall_impl; [| exact Hphase1]. simpl. intros c Hc. lia.
Qed.

End Phases.

Lemma staysWithin_ext {A} lo hi (m m' : M A) :
  (forall log, m log = m' log) -> staysWithin lo hi m -> staysWithin lo hi m'.
Proof. intros Heq Hm log. rewrite <- Heq. apply Hm. Qed.

(** ** The driver *)

Section DriverProperties.
Context {Node : Type} `{Collaborators Node}.

(** The privilege check asks for the records in order, up to the first one
    denied, and passes when none is. *)
Lemma checkPrivilege_run pm vs :
  forall log, exists n,
    checkPrivilege pm vs log =
    (Go.Returns (forallb (verified pm) vs),
     log ++ map pm_RequestVerification (firstn n vs)).
Proof.
  induction vs as [| v vs IH]; intros log; simpl.
  - exists 0. now rewrite app_nil_r.
  - unfold Go.bind, Go.call. fold (verified pm v).
    destruct (verified pm v); simpl.
    + destruct (IH (log ++ [pm_RequestVerification v])) as (n & Hrun).
      exists (S n). rewrite Hrun, <- app_assoc. reflexivity.
    + exists 1. reflexivity.
Qed.


Lemma applyRules_phase rules : forall logic, staysWithin 2 2 (applyRules rules logic).
Proof.
  induction rules as [| rule rules IH]; intros logic; simpl.
  - apply staysWithin_ret.
  - apply (staysWithin_bind 2 2 2); [lia | apply staysWithin_call; simpl; lia |].
    intros r. destruct (snd r); [apply staysWithin_ret | apply IH].
Qed.

Lemma logicalOptimize_phase flag logic : staysWithin 2 2 (logicalOptimize flag logic).
Proof.
  apply (staysWithin_ext _ _ (applyRules (enabled flag) logic)).
  - intros log. symmetry. apply logicalOptimize_applyRules.
  - apply applyRules_phase.
Qed.

Lemma cartesianGuard_phase logic : staysWithin 3 3 (cartesianGuard logic).
Proof.
  unfold cartesianGuard. destruct (negb AllowCartesianProduct).
  - destruct logic; [apply staysWithin_call; simpl; lia | apply staysWithin_panic].
  - apply staysWithin_ret.
Qed.

Lemma physicalOptimize_phase logic : staysWithin 4 4 (physicalOptimize logic).
Proof.
  unfold physicalOptimize. destruct logic as [l |]; [| apply staysWithin_panic].
  apply (staysWithin_bind 4 4 4); [lia | apply staysWithin_call; simpl; lia |].
  intros _.
  apply (staysWithin_bind 4 4 4); [lia | apply staysWithin_call; simpl; lia |].
  intros e. destruct e; [apply staysWithin_ret |].
  apply (staysWithin_bind 4 4 4); [lia | apply staysWithin_call; simpl; lia |].
  intros r. destruct (snd r); [apply staysWithin_ret |].
  destruct (fst r) as [t |]; [| apply staysWithin_panic].
  destruct (invalid t); [apply staysWithin_ret |].
  destruct (plan t); [| apply staysWithin_panic].
  apply (staysWithin_bind 4 4 4); [lia | apply staysWithin_call; simpl; lia |].
  intros p'. apply staysWithin_ret.
Qed.

Lemma doOptimize_phase flag logic : staysWithin 2 5 (doOptimize flag logic).
Proof.
  unfold doOptimize.
  apply (staysWithin_bind 2 2 5); [lia | apply logicalOptimize_phase |].
  intros r. destruct (snd r); [apply staysWithin_ret |].
  apply (staysWithin_bind 2 3 5); [lia | |].
  { apply (staysWithin_weaken 3 3); [lia | lia | apply cartesianGuard_phase]. }
  intros rejected. destruct rejected; [apply staysWithin_ret |].
  apply (staysWithin_bind 3 4 5); [lia | |].
  { apply (staysWithin_weaken 4 4); [lia | lia | apply physicalOptimize_phase]. }
  intros r'. destruct (snd r'); [apply staysWithin_ret |].
  apply (staysWithin_bind 4 5 5); [lia | apply staysWithin_call; simpl; lia |].
  intros finalPlan. apply staysWithin_ret.
Qed.


(** When the privilege manager denies a record, [Optimize] ends after the
    privilege check with the fixed error of the driver. *)
Lemma Optimize_privilege_denied node pm :
  err (snd (build node)) = None ->
  GetPrivilegeManager = Some pm ->
  forallb (verified pm) (visitInfos (snd (build node))) = false ->
  exists n,
    Go.run (Optimize node) =
    (Go.Returns (None, Some (New "privilege check fail")),
     [SetPlanID 0; builder_build] ++
     map pm_RequestVerification (firstn n (visitInfos (snd (build node))))).
Proof.
  intros Hbuilt Hpm Hdenied.
  destruct (checkPrivilege_run pm (visitInfos (snd (build node)))
              [SetPlanID 0; builder_build]) as (n & Hcheck).
  exists n. unfold Go.run, Optimize, Go.bind at 1 2, Go.call at 1 2.
  cbv beta iota. cbn [fst snd app]. rewrite Hbuilt, Hpm.
  unfold Go.bind at 1. rewrite Hcheck, Hdenied. reflexivity.
Qed.

Lemma checkPrivilege_granted pm vs :
  forallb (verified pm) vs = true ->
  forall log,
    checkPrivilege pm vs log =
    (Go.Returns true, log ++ map pm_RequestVerification vs).
Proof.
  induction vs as [| v vs IH]; simpl; intros Hall log.
  - now rewrite app_nil_r.
  - apply andb_true_iff in Hall as [Hv Hvs].
    unfold Go.bind, Go.call. fold (verified pm v). rewrite Hv. simpl.
    rewrite (IH Hvs), <- app_assoc. reflexivity.
Qed.


(** C7, as the code has it. When the privilege check fails, [Optimize]
    returns the one error [errors.New("privilege check fail")], whichever
    record was denied: the error does not name the database, table, column
    or privilege. *)
Theorem Optimize_privilege_error_is_generic :
  forall node pm,
    err (snd (build node)) = None ->
    GetPrivilegeManager = Some pm ->
    forallb (verified pm) (visitInfos (snd (build node))) = false ->
    Go.result (Go.run (Optimize node)) =
      Some (None, Some (New "privilege check fail")).
Proof.
  intros node pm Hbuilt Hpm Hdenied.
  destruct (Optimize_privilege_denied node pm Hbuilt Hpm Hdenied) as (n & ->).
  reflexivity.
Qed.

(** C8. [BuildLogicalPlan] calls the builder and nothing else: no rule, no
    guard, no search. It returns the plan of the builder as it is, or, when
    the builder failed, no plan and the error of the builder under
    [errors.Trace]. *)
Theorem BuildLogicalPlan_returns_the_plan_of_the_builder :
  forall node,
    Go.run (BuildLogicalPlan node) =
    (Go.Returns
       match err (snd (build node)) with
       | Some e => (None, Some (Traced e))
       | None => (fst (build node), None)
       end,
     [SetPlanID 0; builder_build]).
Proof.
  intros node. unfold Go.run, BuildLogicalPlan, Go.bind, Go.call. simpl.
  destruct (err (snd (build node))); reflexivity.
Qed.

End DriverProperties.

(** C7, the claim as stated, refuted. No reading of the error that
    [Optimize] returns tells which record was denied: under a manager that
    denies everything on table [T], a query that needs [SELECT] on [test.T]
    and one that needs [UPDATE] on column [c] of [prod.T] get the same
    error. *)
Lemma Optimize_privilege_error_does_not_name_the_record :
  ~ exists report : option error -> visitInfo,
      forall v,
        verified Scenario.denyT v = false ->
        report (Go.returnedError
                  (Go.run (Optimize (H := Scenario.collaborators true (Some Scenario.denyT))
                             (Scenario.visiting v)))) = v.
Proof.
  intros [report Hreport].
  pose proof (Hreport (Scenario.selectOn "T") eq_refl) as Hselect.
  pose proof (Hreport {| privilege := UpdatePriv; db := "prod"; table := "T";
                         column := "c" |} eq_refl) as Hupdate.
  vm_compute in Hselect, Hupdate. rewrite Hselect in Hupdate. discriminate.
Qed.

(** ** The transactional buffer *)

Import kv.

Lemma len_0 {A} (s : list A) : (len s =? 0)%Z = true <-> length s = 0%nat.
Proof. unfold len. rewrite Z.eqb_eq. lia. Qed.

(** C9. [Set] with a value of length zero returns [ErrCannotSetNilValue]
    (under [errors.Trace]) and leaves the buffer as it was; [Set] never
    stores a value of length zero; [Delete] stores the [nil] value for the
    key, which [Get] then gives back without an error. *)
Theorem memDbBuffer_Set_refuses_the_empty_value :
  forall (m : memDbBuffer) (k : Key),
    (forall v : Value,
        length v = 0%nat ->
        memDbBuffer_Set m k v = (m, Some (Traced (Terror ErrCannotSetNilValue)))) /\
    (forall (v : Value) (k' : Key),
        db (fst (memDbBuffer_Set m k v)) !! k' = Some [] -> db m !! k' = Some []) /\
    memDbBuffer_Delete m k = (with_db m (<[k := []]> (db m)), None) /\
    memDbBuffer_Get (fst (memDbBuffer_Delete m k)) k = ([], None).
Proof.
  intros m k. split; [| split; [| split]].
  - intros v Hv. unfold memDbBuffer_Set.
    now rewrite (proj2 (len_0 v) Hv).
  - intros v k'. unfold memDbBuffer_Set.
    destruct (len v =? 0)%Z eqn:Hv; [trivial |].
    destruct (len k + len v >? entrySizeLimit m)%Z; [trivial |].
    assert (Hput : db (with_db m (fst (db_Put (db m) k v))) !! k' = Some [] ->
                   db m !! k' = Some []).
    { simpl. destruct (decide (k = k')) as [<- | Hne].
      - rewrite lookup_insert_eq. intros [= ->]. discriminate Hv.
      - now rewrite lookup_insert_ne. }
    destruct (_ >? _)%Z; [exact Hput |].
    destruct (_ >? _)%Z; exact Hput.
  - reflexivity.
  - unfold memDbBuffer_Get, memDbBuffer_Delete, db_Get, db_Put. simpl.
    now rewrite lookup_insert_eq.
Qed.

Section BufferStoreProperties.
Context {B R : Type} `{Retriever B} `{Retriever R}.
Variable IsErrNotFound : option error -> bool.

(** The run of [BufferStore.Get], written out. *)
Lemma BufferStore_Get_run (s : BufferStore B R) (k : Key) (log : list Call) :
  BufferStore_Get IsErrNotFound s k log =
    (Go.Returns
       match snd (if IsErrNotFound (snd (Get (MemBuffer s) k))
                  then Get (r s) k else Get (MemBuffer s) k) with
       | Some e => ([], Some (Traced e))
       | None =>
           if (len (fst (if IsErrNotFound (snd (Get (MemBuffer s) k))
                         then Get (r s) k else Get (MemBuffer s) k)) =? 0)%Z
           then ([], Some (Terror ErrNotExist))
           else (fst (if IsErrNotFound (snd (Get (MemBuffer s) k))
                      then Get (r s) k else Get (MemBuffer s) k), None)
       end,
     log ++ MemBuffer_Get k ::
       (if IsErrNotFound (snd (Get (MemBuffer s) k)) then [r_Get k] else [])).
Proof.
  unfold BufferStore_Get, Go.bind, Go.call, Go.ret. simpl.
  destruct (IsErrNotFound (snd (Get (MemBuffer s) k))); simpl.
  - rewrite <- app_assoc. simpl.
    destruct (snd (Get (r s) k)); [reflexivity |].
    destruct (len _ =? 0)%Z; reflexivity.
  - destruct (snd (Get (MemBuffer s) k)); [reflexivity |].
    destruct (len _ =? 0)%Z; reflexivity.
Qed.

(** C10. [BufferStore.Get] asks the buffer first, and the retriever only
    when [IsErrNotFound] holds of the error of the buffer; an error of the
    store asked last is returned under [errors.Trace]; a value of length
    zero found without an error gives [ErrNotExist]; so a [Get] that returns
    no error returns a value that is not empty. *)
Theorem BufferStore_Get_consults_the_buffer_first :
  forall (s : BufferStore B R) (k : Key) (log : list Call),
    let buffered := Get (MemBuffer s) k in
    let found := if IsErrNotFound (snd buffered) then Get (r s) k else buffered in
    BufferStore_Get IsErrNotFound s k log =
      (Go.Returns
         match snd found with
         | Some e => ([], Some (Traced e))
         | None =>
             if (len (fst found) =? 0)%Z
             then ([], Some (Terror ErrNotExist))
             else (fst found, None)
         end,
       log ++ MemBuffer_Get k ::
         (if IsErrNotFound (snd buffered) then [r_Get k] else [])) /\
    (forall v log',
        BufferStore_Get IsErrNotFound s k log = (Go.Returns (v, None), log') ->
        (0 < length v)%nat).
Proof.
  intros s k log buffered found. split; [apply BufferStore_Get_run |].
  intros v log'. rewrite BufferStore_Get_run. fold buffered. fold found.
  destruct (snd found); [discriminate |].
  destruct (len (fst found) =? 0)%Z eqn:Hlen; [discriminate |].
  intros [= <- _]. apply Z.eqb_neq in Hlen. unfold len in Hlen. lia.
Qed.

End BufferStoreProperties.

(** X20. A key deleted in the buffer is not read from the retriever: the
    delete marker answers for it, and [Get] gives [ErrNotExist]. *)
Lemma BufferStore_Get_after_Delete {R : Type} `{Retriever R}
    (IsErrNotFound : option error -> bool) (m : memDbBuffer) (store : R) (k : Key) :
  IsErrNotFound None = false ->
  Go.run (BufferStore_Get IsErrNotFound
            {| MemBuffer := fst (memDbBuffer_Delete m k); r := store |} k) =
  (Go.Returns ([], Some (Terror ErrNotExist)), [MemBuffer_Get k]).
Proof.
  intros Hnil. unfold Go.run.
  rewrite BufferStore_Get_run.
  simpl. unfold memDbBuffer_Get, db_Get. simpl.
  rewrite lookup_insert_eq. simpl. now rewrite Hnil.
Qed.

(** ** The scenarios of the design document *)

Import Scenario.

(** Scenario D: with only the flag of the column pruner, the column pruner
    alone is called. *)
Lemma scenario_only_the_column_pruner :
  nth_error optRuleList 0 = Some columnPruner /\
  logicalOptimize (H := permissive) (2 ^ Z.of_nat 0) (Some projected) [] =
    (Go.Returns (Some (scan "A"), None), [rule_optimize columnPruner (Some projected)]).
Proof.
  split; [reflexivity |].
  rewrite (proj1 (proj2 logicalOptimize_applies_the_enabled_rules_in_catalog_order)
             0%nat columnPruner (Some projected) [] eq_refl).
  reflexivity.
Defined.

(** The decorrelator fails on a correlated plan while handing a plan back:
    the four rules after it are not called and the plan is dropped. *)
Lemma scenario_failing_decorrelator :
  enabled 255 =
    [columnPruner; projectionEliminater; buildKeySolver] ++
    decorrelateSolver ::
    [maxMinEliminator; ppdSolver; aggregationOptimizer; pushDownTopNOptimizer] /\
  applyRules (H := permissive) [columnPruner; projectionEliminater; buildKeySolver]
    (Some correlated) [] =
    (Go.Returns (Some correlated, None),
     [ rule_optimize columnPruner (Some correlated);
       rule_optimize projectionEliminater (Some correlated);
       rule_optimize buildKeySolver (Some correlated) ]) /\
  optimize (Collaborators := permissive) decorrelateSolver (Some correlated) =
    (Some correlated, Some (Foreign 7)) /\
  logicalOptimize (H := permissive) 255 (Some correlated) [] =
    (Go.Returns (None, Some (Traced (Foreign 7))),
     [ rule_optimize columnPruner (Some correlated);
       rule_optimize projectionEliminater (Some correlated);
       rule_optimize buildKeySolver (Some correlated);
       rule_optimize decorrelateSolver (Some correlated) ]) /\
  (None : option LogicalPlan) = None.
Proof.
  split; [reflexivity |]. split; [reflexivity |]. split; [reflexivity |]. split.
  - apply (proj2 (logicalOptimize_aborts_on_the_first_error (H := permissive)
                    255 (Some correlated) [])
             [columnPruner; projectionEliminater; buildKeySolver] decorrelateSolver
             [maxMinEliminator; ppdSolver; aggregationOptimizer; pushDownTopNOptimizer]
             (Some correlated) _ (Foreign 7) eq_refl eq_refl eq_refl).
  - apply (proj1 (logicalOptimize_aborts_on_the_first_error (H := permissive)
                    255 (Some correlated) [])
             None (Traced (Foreign 7))
             [ rule_optimize columnPruner (Some correlated);
               rule_optimize projectionEliminater (Some correlated);
               rule_optimize buildKeySolver (Some correlated);
               rule_optimize decorrelateSolver (Some correlated) ]).
    reflexivity.
Defined.




(** Scenario C again: the error is the same fixed one. *)
Lemma scenario_C_generic_error :
  err (snd (build (Collaborators := guarded) readsT)) = None /\
  GetPrivilegeManager (Collaborators := guarded) = Some denyT /\
  forallb (verified denyT) (visitInfos (snd (build (Collaborators := guarded) readsT)))
    = false /\
  Go.result (Go.run (Optimize (H := guarded) readsT)) =
    Some (None, Some (New "privilege check fail")).
Proof.
  split; [reflexivity |]. split; [reflexivity |]. split; [reflexivity |].
  apply (Optimize_privilege_error_is_generic (H := guarded) readsT denyT
           eq_refl eq_refl eq_refl).
Defined.

(** The empty value is refused; a delete marker in the buffer comes from
    [Delete], not from [Set]. *)
Lemma scenario_empty_value :
  length ([] : list byte) = 0%nat /\
  kv.memDbBuffer_Set holdsK1 k1 [] =
    (holdsK1, Some (Traced (Terror ErrCannotSetNilValue))) /\
  kv.db (fst (kv.memDbBuffer_Set deletedK1 k2 v1)) !! k1 = Some [] /\
  kv.db deletedK1 !! k1 = Some [].
Proof.
  split; [reflexivity |]. split; [| split].
  - apply (proj1 (memDbBuffer_Set_refuses_the_empty_value holdsK1 k1) [] eq_refl).
  - vm_compute. reflexivity.
  - apply (proj1 (proj2 (memDbBuffer_Set_refuses_the_empty_value deletedK1 k2)) v1 k1).
    vm_compute. reflexivity.
Defined.

(** A key found in the buffer is returned without asking the snapshot. *)
Lemma scenario_buffered_key :
  kv.BufferStore_Get IsErrNotFound (store holdsK1) k1 [] =
    (Go.Returns (v1, None), [kv.MemBuffer_Get k1]) /\
  (0 < length v1)%nat.
Proof.
  split; [vm_compute; reflexivity |].
  apply (proj2 (BufferStore_Get_consults_the_buffer_first IsErrNotFound
                  (store holdsK1) k1 [])
           v1 [kv.MemBuffer_Get k1]).
  vm_compute. reflexivity.
Defined.

(** Scenario B: the guard passes and the search returns a physical join;
    the log shows the phases in their order. *)
Example scenario_B_equality_join :
  Go.run (Optimize (H := strict) (query equiAB 255)) =
    (Go.Returns
       (Some (IsPhysical
                (PhysicalOperator "HashJoin [resolved]"
                   [PhysicalOperator "TableScan A" []; PhysicalOperator "TableScan B" []])),
        None),
     [SetPlanID 0; builder_build] ++ allRules equiAB ++
     [ call_existsCartesianProduct equiAB;
       logic_preparePossibleProperties equiAB; logic_deriveStats equiAB;
       logic_findBestTask equiAB rootProp; p_ResolveIndices (implement equiAB);
       call_eliminatePhysicalProjection (Some (resolve (implement equiAB))) ]).
Proof. reflexivity. Qed.

(** The cartesian join under the semi-join passes the guard although
    cartesian products are disallowed, and is planned. *)
Example scenario_semi_join_over_cartesian_join :
  hasCartesianJoin semiOverCartesian = true /\
  Go.result (Go.run (Optimize (H := strict) (query semiOverCartesian 255))) =
    Some (Some (IsPhysical
                  (PhysicalOperator "HashJoin [resolved]"
                     [ PhysicalOperator "TableScan T" [];
                       PhysicalOperator "HashJoin"
                         [PhysicalOperator "TableScan A" [];
                          PhysicalOperator "TableScan B" []] ])),
          None).
Proof. split; reflexivity. Qed.

(** A key deleted in the buffer reads as absent although the snapshot
    holds it. *)
Example scenario_deleted_key :
  Go.run (kv.BufferStore_Get IsErrNotFound (store deletedK1) k1) =
    (Go.Returns ([], Some (Terror ErrNotExist)), [kv.MemBuffer_Get k1]) /\
  Go.run (kv.BufferStore_Get IsErrNotFound (store emptyBuffer) k1) =
    (Go.Returns (v1, None), [kv.MemBuffer_Get k1; kv.r_Get k1]).
Proof. split; vm_compute; reflexivity. Qed.

(** * Further properties of the code *)

(** ** The driver beyond the checked paths *)

Section DriverEdges.
Context {Node : Type} `{Collaborators Node}.

(** X3. The privilege check asks the manager for the records in order and
    stops at the first one denied: the records after it are not asked for. *)
Theorem checkPrivilege_stops_at_the_first_denied_record :
  forall pm granted v rest log,
    forallb (verified pm) granted = true ->
    verified pm v = false ->
    checkPrivilege pm (granted ++ v :: rest) log =
      (Go.Returns false, log ++ map pm_RequestVerification (granted ++ [v])).
Proof.
  intros pm granted v rest. induction granted as [| g granted IH]; intros log Hall Hv.
  - simpl. unfold Go.bind, Go.call. fold (verified pm v). now rewrite Hv.
  - simpl in Hall. apply andb_true_iff in Hall as [Hg Hall].
    simpl. unfold Go.bind, Go.call. fold (verified pm g). rewrite Hg. simpl.
    rewrite (IH _ Hall Hv), <- app_assoc. reflexivity.
Qed.

(** The run of [Optimize] once the builder has succeeded and the privilege
    check has passed. *)
Lemma Optimize_when_granted node :
  err (snd (build node)) = None ->
  privilegeGranted node = true ->
  Go.run (Optimize node) =
    match fst (build node) with
    | Some (IsLogical logic) =>
        r <- doOptimize (optFlag (snd (build node))) (Some logic) ;;
        Go.ret (option_map IsPhysical (fst r), snd r)
    | Some (IsExecute execPlan) =>
        e <- Go.call (execPlan_optimizePreparedPlan execPlan)
               (optimizePreparedPlan execPlan) ;;
        Go.ret (fst (build node), Trace e)
    | _ => Go.ret (fst (build node), None)
    end ([SetPlanID 0; builder_build] ++ privilegeCalls node).
Proof.
  unfold privilegeGranted, privilegeCalls. intros Hbuilt Hgranted.
  unfold Go.run, Optimize, Go.bind at 1 2, Go.call at 1 2.
  cbv beta iota. cbn [fst snd app]. rewrite Hbuilt.
  unfold Go.bind at 1.
  destruct GetPrivilegeManager as [pm |].
  - rewrite (checkPrivilege_granted pm _ Hgranted). reflexivity.
  - reflexivity.
Qed.

(** X4. When the builder fails, [Optimize] returns no plan and the error of
    the builder under [errors.Trace]; the privilege manager is not asked and
    nothing is rewritten. *)
Theorem Optimize_returns_the_error_of_the_builder :
  forall node e,
    err (snd (build node)) = Some e ->
    Go.run (Optimize node) =
      (Go.Returns (None, Some (Traced e)), [SetPlanID 0; builder_build]).
Proof.
  intros node e Hfailed.
  unfold Go.run, Optimize, Go.bind, Go.call. cbn [fst snd app].
  rewrite Hfailed. reflexivity.
Qed.

(** X5. Without a privilege manager there is no privilege check: whatever
    the visit records are, no verification is requested, and every call
    after the builder belongs to the later phases. *)
Theorem Optimize_without_privilege_manager_checks_nothing :
  forall node,
    GetPrivilegeManager = None ->
    exists calls,
      snd (Go.run (Optimize node)) = [SetPlanID 0; builder_build] ++ calls /\
      Forall (fun c => 2 <= phase c) calls.
Proof.
  intros node Hpm.
  destruct (err (snd (build node))) as [e |] eqn:Hbuilt.
  - exists []. unfold Go.run, Optimize, Go.bind, Go.call. cbn [fst snd app].
    rewrite Hbuilt. split; [reflexivity | constructor].
  - rewrite (Optimize_when_granted node Hbuilt)
      by (unfold privilegeGranted; now rewrite Hpm).
    unfold privilegeCalls. rewrite Hpm, app_nil_r.
    assert (Hrest : forall (m : M (option Plan * option error)),
               staysWithin 2 5 m ->
               exists calls,
                 snd (m [SetPlanID 0; builder_build]) =
                   [SetPlanID 0; builder_build] ++ calls /\
                 Forall (fun c => 2 <= phase c) calls).
    { intros m Hm. destruct (Hm [SetPlanID 0; builder_build]) as (calls & Hlog & _ & Hphase).
      exists calls. split; [exact Hlog |].
      eapply List.Forall_impl; [| exact Hphase]. simpl. intros c Hc. lia. }
    apply Hrest.
    destruct (fst (build node)) as [[logic | physical | execPlan | name] |];
      try apply staysWithin_ret.
    + apply (staysWithin_bind 2 5 5); [lia | apply doOptimize_phase |].
      intros r. apply staysWithin_ret.
    + apply (staysWithin_bind 2 2 5); [lia | apply staysWithin_call; simpl; lia |].
      intros e. apply staysWithin_ret.
Qed.

(** X6. For a prepared statement ([*Execute]) [Optimize] calls the hook of
    the plan and returns the plan together with the error of the hook under
    [errors.Trace]: when the hook fails, the caller gets a plan and an error
    at once. No rule, guard or search is called. *)
Theorem Optimize_returns_a_prepared_plan_with_the_error_of_its_hook :
  forall node execPlan,
    err (snd (build node)) = None ->
    privilegeGranted node = true ->
    fst (build node) = Some (IsExecute execPlan) ->
    Go.run (Optimize node) =
      (Go.Returns (Some (IsExecute execPlan), Trace (optimizePreparedPlan execPlan)),
       [SetPlanID 0; builder_build] ++ privilegeCalls node ++
       [execPlan_optimizePreparedPlan execPlan]).
Proof.
  intros node execPlan Hbuilt Hgranted Hplan.
  rewrite (Optimize_when_granted node Hbuilt Hgranted), Hplan.
  unfold Go.bind, Go.call, Go.ret. now rewrite <- app_assoc.
Qed.

(** X7. A plan that is neither a logical plan nor a prepared statement (an
    insert, say) is returned as the builder made it, without an error and
    without any call after the privilege check. *)
Theorem Optimize_returns_other_plans_unchanged :
  forall node,
    err (snd (build node)) = None ->
    privilegeGranted node = true ->
    (forall logic, fst (build node) <> Some (IsLogical logic)) ->
    (forall execPlan, fst (build node) <> Some (IsExecute execPlan)) ->
    Go.run (Optimize node) =
      (Go.Returns (fst (build node), None),
       [SetPlanID 0; builder_build] ++ privilegeCalls node).
Proof.
  intros node Hbuilt Hgranted Hlogic Hexec.
  rewrite (Optimize_when_granted node Hbuilt Hgranted).
  destruct (fst (build node)) as [[logic | physical | execPlan | name] |];
    try reflexivity.
  - now destruct (Hlogic logic).
  - now destruct (Hexec execPlan).
Qed.

(** X8. Only the eight low bits of the mask count: a mask and its value
    modulo 256 run the same rules. *)
Theorem logicalOptimize_ignores_the_bits_above_the_catalog :
  forall flag logic log,
    logicalOptimize flag logic log = logicalOptimize (flag mod 2 ^ 8) logic log.
Proof.
  intros flag logic log. rewrite !logicalOptimize_applyRules.
  replace (enabled (flag mod 2 ^ 8)) with (enabled flag); [reflexivity |].
  unfold enabled. cbn [optRuleList length seq combine List.filter fst].
  rewrite !(Z.testbit_mod_pow2 flag 8) by lia. reflexivity.
Qed.

(** X9. When a rule of the pipeline fails, [doOptimize] returns no plan and
    the error of the rule under two [errors.Trace] (one of [logicalOptimize],
    one of its own); the guard and the search are not reached. *)
Theorem doOptimize_returns_the_error_of_a_failing_rule :
  forall flag logic log before rule after q log1 e,
    enabled flag = before ++ rule :: after ->
    applyRules before logic log = (Go.Returns (q, None), log1) ->
    snd (optimize rule q) = Some e ->
    doOptimize flag logic log =
      (Go.Returns (None, Some (Traced (Traced e))), log1 ++ [rule_optimize rule q]).
Proof.
  intros flag logic log before rule after q log1 e Hflag Hbefore Hfail.
  unfold doOptimize, Go.bind at 1.
  rewrite logicalOptimize_applyRules, Hflag, applyRules_app, Hbefore. simpl.
  unfold Go.bind at 1, Go.call. rewrite Hfail. reflexivity.
Qed.

(** X10. [doOptimize] never returns a plan together with an error. *)
Theorem doOptimize_never_returns_a_plan_with_an_error :
  forall flag logic log p e log',
    doOptimize flag logic log = (Go.Returns (p, Some e), log') -> p = None.
Proof.
  intros flag logic log p e log'. unfold doOptimize.
  generalize (logicalOptimize flag logic). intros pipeline.
  unfold Go.bind at 1.
  destruct (pipeline log) as [[[q [e1 |]] |] log1]; cbn [fst snd].
  - unfold Go.ret. congruence.
  - unfold Go.bind at 1.
    destruct (cartesianGuard q log1) as [[[|] |] log2].
    + unfold Go.ret. congruence.
    + generalize (physicalOptimize q). intros search.
      unfold Go.bind at 1.
      destruct (search log2) as [[[physical [e2 |]] |] log3]; cbn [fst snd].
      * unfold Go.ret. congruence.
      * unfold Go.bind, Go.call, Go.ret. congruence.
      * congruence.
    + congruence.
  - congruence.
Qed.

(** X11. An error of [deriveStats] ends [physicalOptimize] before the
    search; an error of [findBestTask] ends it before the indices are
    resolved, also when a task came with the error. Both are returned under
    [errors.Trace], without a plan. *)
Theorem physicalOptimize_returns_the_errors_of_its_steps :
  forall logic log e,
    (deriveStats logic = Some e ->
     physicalOptimize (Some logic) log =
       (Go.Returns (None, Some (Traced e)),
        log ++ [logic_preparePossibleProperties logic; logic_deriveStats logic])) /\
    (forall t,
        deriveStats logic = None ->
        findBestTask logic rootProp = (t, Some e) ->
        physicalOptimize (Some logic) log =
          (Go.Returns (None, Some (Traced e)),
           log ++ [ logic_preparePossibleProperties logic; logic_deriveStats logic;
                    logic_findBestTask logic rootProp ])).
Proof.
  intros logic log e.
  unfold physicalOptimize, rootProp, Go.bind, Go.call, Go.ret. split.
  - intros ->. now rewrite <- app_assoc.
  - intros t -> ->. cbn [fst snd]. now rewrite <- !app_assoc.
Qed.

(** X12. When cartesian products are disallowed and the guard finds none,
    the guard is the one call between the pipeline and the search, and
    [doOptimize] returns the plan of the search after the elimination of
    the projections, or the error of the search under [errors.Trace]. *)
Theorem doOptimize_plans_what_passes_the_guard :
  forall flag logic log q log1,
    logicalOptimize flag logic log = (Go.Returns (Some q, None), log1) ->
    AllowCartesianProduct = false ->
    existsCartesianProduct q = false ->
    doOptimize flag logic log =
      match physicalOptimize (Some q) (log1 ++ [call_existsCartesianProduct q]) with
      | (Go.Returns (physical, None), log2) =>
          (Go.Returns (eliminatePhysicalProjection physical, None),
           log2 ++ [call_eliminatePhysicalProjection physical])
      | (Go.Returns (_, Some e), log2) => (Go.Returns (None, Some (Traced e)), log2)
      | (Go.Panics, log2) => (Go.Panics, log2)
      end.
Proof.
  intros flag logic log q log1 Hpipeline Hpolicy Hguard.
  unfold doOptimize, Go.bind at 1. rewrite Hpipeline.
  cbv beta iota. cbn [fst snd].
  unfold cartesianGuard. rewrite Hpolicy.
  generalize (physicalOptimize (Some q)). intros search.
  unfold Go.bind, Go.ret, Go.call. simpl. rewrite Hguard.
  destruct (search _) as [[[physical [e |]] |] log2]; reflexivity.
Qed.

End DriverEdges.

(** ** The order of the keys *)

Lemma to_N_inj (x y : byte) : Byte.to_N x = Byte.to_N y -> x = y.
Proof.
  intros Hxy. pose proof (Byte.of_to_N x) as Hx. rewrite Hxy, Byte.of_to_N in Hx.
  congruence.
Qed.

Lemma bytes_Compare_refl a : bytes_Compare a a = Eq.
Proof. induction a as [| x a IH]; simpl; [reflexivity |]. now rewrite N.compare_refl. Qed.

Lemma bytes_Compare_eq a : forall b, bytes_Compare a b = Eq -> a = b.
Proof.
  induction a as [| x a IH]; intros [| y b]; simpl; try congruence.
  destruct (N.compare_spec (Byte.to_N x) (Byte.to_N y)) as [Hxy | |]; try discriminate.
  intros Hab. now rewrite (to_N_inj _ _ Hxy), (IH b Hab).
Qed.

Lemma bytes_Compare_antisym a : forall b, bytes_Compare b a = CompOpp (bytes_Compare a b).
Proof.
  induction a as [| x a IH]; intros [| y b]; simpl; try reflexivity.
  rewrite (N.compare_antisym (Byte.to_N x) (Byte.to_N y)).
  destruct (Byte.to_N x ?= Byte.to_N y)%N; simpl; auto.
Qed.

Lemma bytes_Compare_lt_trans a :
  forall b c, bytes_Compare a b = Lt -> bytes_Compare b c = Lt -> bytes_Compare a c = Lt.
Proof.
  induction a as [| x a IH]; intros [| y b] [| z c]; simpl; try congruence.
  destruct (N.compare_spec (Byte.to_N x) (Byte.to_N y)) as [Hxy | Hxy | Hxy];
    destruct (N.compare_spec (Byte.to_N y) (Byte.to_N z)) as [Hyz | Hyz | Hyz];
    try discriminate; intros Hab Hbc.
  - rewrite Hxy, Hyz, N.compare_refl. eauto.
  - rewrite Hxy. now apply N.compare_lt_iff in Hyz as ->.
  - rewrite <- Hyz. now apply N.compare_lt_iff in Hxy as ->.
  - assert (Hxz : (Byte.to_N x < Byte.to_N z)%N) by lia.
    now apply N.compare_lt_iff in Hxz as ->.
Qed.

Lemma Key_leb_ltb a b : Key_leb a b = negb (Key_ltb b a).
Proof.
  unfold Key_leb, Key_ltb. rewrite (bytes_Compare_antisym a b).
  now destruct (bytes_Compare a b).
Qed.

Lemma Key_ltb_irrefl a : Key_ltb a a = false.
Proof. unfold Key_ltb. now rewrite bytes_Compare_refl. Qed.

Lemma Key_ltb_trans a b c : Key_ltb a b = true -> Key_ltb b c = true -> Key_ltb a c = true.
Proof.
  unfold Key_ltb. intros Hab Hbc.
  destruct (bytes_Compare a b) eqn:Eab; try discriminate.
  destruct (bytes_Compare b c) eqn:Ebc; try discriminate.
  now rewrite (bytes_Compare_lt_trans a b c Eab Ebc).
Qed.

Lemma Key_ltb_leb a b : Key_ltb a b = true -> Key_leb a b = true.
Proof. unfold Key_ltb, Key_leb. now destruct (bytes_Compare a b). Qed.

Lemma Key_leb_cases a b : Key_leb a b = true -> a = b \/ Key_ltb a b = true.
Proof.
  unfold Key_ltb, Key_leb. destruct (bytes_Compare a b) eqn:Eab; try discriminate; auto.
  left. now apply bytes_Compare_eq.
Qed.

Lemma Key_leb_refl a : Key_leb a a = true.
Proof. unfold Key_leb. now rewrite bytes_Compare_refl. Qed.

Lemma Key_ltb_leb_trans a b c :
  Key_ltb a b = true -> Key_leb b c = true -> Key_ltb a c = true.
Proof.
  intros Hab Hbc. destruct (Key_leb_cases b c Hbc) as [<- | Hlt]; [assumption |].
  now apply (Key_ltb_trans a b c).
Qed.

Lemma Key_leb_ltb_trans a b c :
  Key_leb a b = true -> Key_ltb b c = true -> Key_ltb a c = true.
Proof.
  intros Hab Hbc. destruct (Key_leb_cases a b Hab) as [-> | Hlt]; [assumption |].
  now apply (Key_ltb_trans a b c).
Qed.

Lemma Key_leb_trans a b c :
  Key_leb a b = true -> Key_leb b c = true -> Key_leb a c = true.
Proof.
  intros Hab Hbc. destruct (Key_leb_cases a b Hab) as [-> | Hlt]; [assumption |].
  apply Key_ltb_leb. now apply (Key_ltb_leb_trans a b c).
Qed.

Lemma Key_leb_nil a : Key_leb [] a = true.
Proof. now destruct a. Qed.

Lemma Key_ltb_nil a : Key_ltb a [] = false.
Proof. now destruct a. Qed.

#[local] Instance entry_le_total : Total entry_le.
Proof.
  intros e1 e2. unfold entry_le. rewrite (Key_leb_ltb (fst e1) (fst e2)).
  destruct (Key_ltb (fst e2) (fst e1)) eqn:Hlt; simpl; [right | now left].
  apply Is_true_true. now apply Key_ltb_leb.
Qed.

#[local] Instance entry_le_trans : Transitive entry_le.
Proof.
  intros e1 e2 e3. unfold entry_le. rewrite !Is_true_true. apply Key_leb_trans.
Qed.

(** ** The entries of the store, in order *)

Lemma db_entries_lookup (d : DB) k v : In (k, v) (db_entries d) <-> d !! k = Some v.
Proof.
  unfold db_entries. rewrite <- list_elem_of_In, merge_sort_Permutation.
  apply elem_of_map_to_list.
Qed.

Lemma db_entries_length (d : DB) : length (db_entries d) = size d.
Proof.
  unfold db_entries. rewrite merge_sort_Permutation. apply length_map_to_list.
Qed.

Lemma db_entries_NoDup (d : DB) : NoDup (map fst (db_entries d)).
Proof.
  unfold db_entries.
  assert (Hperm : map fst (merge_sort entry_le (map_to_list d)) ≡ₚ map fst (map_to_list d))
    by (apply fmap_Permutation, merge_sort_Permutation).
  rewrite Hperm. apply NoDup_fst_map_to_list.
Qed.

Lemma db_entries_ascending (d : DB) : ascending (db_entries d).
Proof.
  pose proof (db_entries_NoDup d) as Hnodup.
  assert (Hsorted : StronglySorted entry_le (db_entries d))
    by (apply StronglySorted_merge_sort; apply _).
  unfold ascending. induction Hsorted as [| e l Hl IH He]; [constructor |].
  simpl in Hnodup. apply NoDup_cons in Hnodup as [Hnotin Hnodup].
  constructor; [now apply IH |].
  rewrite List.Forall_forall in He. apply List.Forall_forall. intros x Hx.
  specialize (He x Hx). unfold entry_le in He. apply Is_true_true in He.
  destruct (Key_leb_cases _ _ He) as [Heq | Hlt]; [| assumption].
  exfalso. apply Hnotin. rewrite Heq. apply list_elem_of_In. now apply in_map.
Qed.

Lemma db_entries_to_map (d : DB) : list_to_map (db_entries d) = d.
Proof.
  rewrite <- (list_to_map_to_list d) at 2.
  apply list_to_map_proper.
  - apply db_entries_NoDup.
  - unfold db_entries. apply merge_sort_Permutation.
Qed.

(** ** Moves on the ordered entries *)

Lemma find_app_none {A} (f : A -> bool) l1 l2 :
  (forall x, In x l1 -> f x = false) -> List.find f (l1 ++ l2) = List.find f l2.
Proof.
  induction l1 as [| x l1 IH]; intros Hnone; simpl; [reflexivity |].
  rewrite (Hnone x) by (simpl; auto). apply IH. intros y Hy. apply Hnone. simpl. auto.
Qed.

Lemma find_head_filter {A} (f : A -> bool) l : List.find f l = head (List.filter f l).
Proof.
  induction l as [| x l IH]; simpl; [reflexivity |].
  destruct (f x); [reflexivity | exact IH].
Qed.

Lemma filter_all {A} (f : A -> bool) l :
  (forall x, In x l -> f x = true) -> List.filter f l = l.
Proof.
  induction l as [| x l IH]; intros Hall; simpl; [reflexivity |].
  rewrite (Hall x) by (simpl; auto). f_equal. apply IH. intros y Hy. apply Hall. simpl. auto.
Qed.

Lemma filter_none {A} (f : A -> bool) l :
  (forall x, In x l -> f x = false) -> List.filter f l = [].
Proof.
  induction l as [| x l IH]; intros Hnone; simpl; [reflexivity |].
  rewrite (Hnone x) by (simpl; auto). apply IH. intros y Hy. apply Hnone. simpl. auto.
Qed.

Lemma ascending_app l1 l2 :
  ascending (l1 ++ l2) ->
  ascending l1 /\ ascending l2 /\
  forall x y, In x l1 -> In y l2 -> Key_ltb (fst x) (fst y) = true.
Proof.
  unfold ascending. induction l1 as [| e l1 IH]; simpl; intros Hsorted.
  - repeat split; [constructor | assumption | intros x y []].
  - apply StronglySorted_inv in Hsorted as [Hrest He].
    destruct (IH Hrest) as (H1 & H2 & H12).
    rewrite List.Forall_forall in He. repeat split; try assumption.
    + constructor; [assumption |]. apply List.Forall_forall. intros x Hx.
      apply He. apply in_or_app. now left.
    + intros x y [<- | Hx] Hy; [| now apply H12].
      apply He. apply in_or_app. now right.
Qed.

Lemma ascending_cons e l :
  ascending (e :: l) ->
  ascending l /\ forall x, In x l -> Key_ltb (fst e) (fst x) = true.
Proof.
  intros Hsorted. apply StronglySorted_inv in Hsorted as [Hrest He].
  split; [assumption |]. now apply List.Forall_forall.
Qed.

Lemma Key_ltb_asym a b : Key_ltb a b = true -> Key_ltb b a = false.
Proof.
  intros Hab. destruct (Key_ltb b a) eqn:Hba; [| reflexivity].
  rewrite <- (Key_ltb_irrefl a). symmetry. now apply (Key_ltb_trans a b a).
Qed.

(** The node after [e] is the next entry, the node before it the one
    before. *)
Lemma next_in_order pre e post :
  ascending (pre ++ e :: post) ->
  List.find (fun x => Key_ltb (fst e) (fst x)) (pre ++ e :: post) = head post.
Proof.
  intros Hsorted. destruct (ascending_app _ _ Hsorted) as (_ & Hpost & Hpre).
  rewrite find_app_none.
  - simpl. rewrite Key_ltb_irrefl.
    destruct post as [| y post]; [reflexivity |]. simpl.
    destruct (ascending_cons _ _ Hpost) as [_ He]. rewrite (He y); simpl; auto.
  - intros x Hx. apply Key_ltb_asym. apply Hpre; simpl; auto.
Qed.

Lemma previous_in_order pre e post :
  ascending (pre ++ e :: post) ->
  List.find (fun x => Key_ltb (fst x) (fst e)) (rev (pre ++ e :: post)) = head (rev pre).
Proof.
  intros Hsorted. destruct (ascending_app _ _ Hsorted) as (_ & Hpost & Hpre).
  destruct (ascending_cons _ _ Hpost) as [_ He].
  rewrite rev_app_distr. simpl. rewrite <- app_assoc. rewrite find_app_none.
  - simpl. rewrite Key_ltb_irrefl.
    destruct (rev pre) as [| x l] eqn:Hrev; [reflexivity |]. simpl.
    rewrite (Hpre x e); [reflexivity | | simpl; auto].
    apply in_rev. rewrite Hrev. simpl. auto.
  - intros y Hy. apply Key_ltb_asym. apply He. now apply in_rev.
Qed.

(** An ordered list falls into the entries below a key and the entries
    from the key on. *)
Lemma ascending_partition key l :
  ascending l ->
  l = List.filter (fun e => Key_ltb (fst e) key) l
      ++ List.filter (fun e => Key_leb key (fst e)) l.
Proof.
  induction l as [| e l IH]; intros Hsorted; [reflexivity |].
  destruct (ascending_cons _ _ Hsorted) as [Hrest He]. cbn [List.filter].
  rewrite (Key_leb_ltb key (fst e)).
  destruct (Key_ltb (fst e) key) eqn:Hlt; cbn [negb app].
  - f_equal. now apply IH.
  - assert (Hge : Key_leb key (fst e) = true) by (rewrite Key_leb_ltb, Hlt; reflexivity).
    rewrite filter_none, filter_all; [reflexivity | |].
    + intros x Hx. apply Key_ltb_leb. apply (Key_leb_ltb_trans key (fst e)); auto.
    + intros x Hx. apply Key_ltb_asym. apply (Key_leb_ltb_trans key (fst e)); auto.
Qed.

Lemma entries_partition (d : DB) (k : option Key) :
  db_entries d =
    List.filter (fun e => negb (fromStart k e)) (db_entries d)
    ++ List.filter (fromStart k) (db_entries d) /\
  db_entries d =
    List.filter (belowLimit k) (db_entries d)
    ++ List.filter (fun e => negb (belowLimit k e)) (db_entries d).
Proof.
  destruct k as [key |]; unfold fromStart, belowLimit.
  - pose proof (ascending_partition key _ (db_entries_ascending d)) as Hsplit.
    split.
    + rewrite Hsplit at 1. f_equal. apply filter_ext. intros e.
      now rewrite Key_leb_ltb, negb_involutive.
    + rewrite Hsplit at 1. f_equal. apply filter_ext. intros e.
      now rewrite Key_leb_ltb.
  - rewrite !(filter_all (fun _ => true)) by auto.
    rewrite !(filter_none (fun _ => negb true)) by auto.
    now rewrite app_nil_r.
Qed.

(** ** Iterators over the buffer *)

Lemma memDbBuffer_Seek_run (m : memDbBuffer) (k : option Key) :
  memDbBuffer_Seek m k =
    (Some (forwardIter (db m) k
             (head (List.filter (fromStart k) (db_entries (db m))))), None).
Proof.
  assert (Hcand : match k with
                  | Some start => db_findGE (db m) start
                  | None => db_first (db m)
                  end = head (List.filter (fromStart k) (db_entries (db m)))).
  { destruct k as [start |]; unfold fromStart.
    - unfold db_findGE. apply find_head_filter.
    - unfold db_first. now rewrite (filter_all (fun _ => true)) by auto. }
  unfold memDbBuffer_Seek, forwardIter.
  destruct k as [start |]; cbn in *; unfold dbIter_Next, dbIter_First; cbn;
    rewrite Hcand; destruct (head _); reflexivity.
Qed.

Lemma memDbBuffer_SeekReverse_run (m : memDbBuffer) (k : option Key) :
  memDbBuffer_SeekReverse m k =
    (Some (backwardIter (db m) k
             (head (rev (List.filter (belowLimit k) (db_entries (db m)))))), None).
Proof.
  assert (Hcand : match k with
                  | Some limit => db_findLT (db m) limit
                  | None => db_findLast (db m)
                  end = head (rev (List.filter (belowLimit k) (db_entries (db m))))).
  { destruct k as [limit |]; unfold belowLimit.
    - unfold db_findLT. now rewrite find_head_filter, filter_rev.
    - unfold db_findLast. now rewrite (filter_all (fun _ => true)) by auto. }
  unfold memDbBuffer_SeekReverse, backwardIter.
  destruct k as [limit |]; cbn in *; unfold dbIter_Last; cbn;
    rewrite Hcand; destruct (head _); reflexivity.
Qed.

Lemma forwardIter_Next (d : DB) start pre e post :
  db_entries d = pre ++ e :: post ->
  memDbIter_Next (forwardIter d start (Some e)) = (forwardIter d start (head post), None).
Proof.
  intros Hentries. unfold memDbIter_Next, forwardIter, dbIter_Next, db_next. cbn.
  rewrite Hentries, next_in_order by (rewrite <- Hentries; apply db_entries_ascending).
  destruct (head post); reflexivity.
Qed.

Lemma backwardIter_Next (d : DB) limit pre e post :
  db_entries d = pre ++ e :: post ->
  memDbIter_Next (backwardIter d limit (Some e)) =
    (backwardIter d limit (head (rev pre)), None).
Proof.
  intros Hentries. unfold memDbIter_Next, backwardIter, dbIter_Prev, db_findLT. cbn.
  rewrite Hentries, previous_in_order by (rewrite <- Hentries; apply db_entries_ascending).
  destruct (head (rev pre)); reflexivity.
Qed.

Section Loops.
Context {St : Type}.
Variable f : Key -> Value -> St -> St * option error.

Lemma loop_forward (d : DB) start post :
  forall pre e fuel st,
    db_entries d = pre ++ e :: post ->
    S (length post) < fuel ->
    WalkMemBuffer_loop fuel (forwardIter d start (Some e)) f st =
      Some (visit f (e :: post) st).
Proof.
  induction post as [| y post IH]; intros pre e fuel st Hentries Hfuel;
    (destruct fuel as [| fuel]; [lia |]);
    cbn [WalkMemBuffer_loop visit]; cbn [Iterator_Valid Iterator_Key Iterator_Value
      Iterator_Next memDbIter_Iterator];
    change (memDbIter_Valid (forwardIter d start (Some e))) with true;
    change (memDbIter_Key (forwardIter d start (Some e))) with (fst e);
    change (memDbIter_Value (forwardIter d start (Some e))) with (snd e);
    cbv iota; destruct (f (fst e) (snd e) st) as [st' [failed |]]; cbn [fst snd Trace];
    try reflexivity;
    rewrite (forwardIter_Next d start pre e _ Hentries); cbn [fst snd head].
  - destruct fuel as [| fuel]; [simpl in Hfuel; lia | reflexivity].
  - apply (IH (pre ++ [e])); [now rewrite <- app_assoc | simpl in Hfuel; lia].
Qed.

Lemma loop_backward (d : DB) limit pre :
  forall e post fuel st,
    db_entries d = pre ++ e :: post ->
    S (length pre) < fuel ->
    WalkMemBuffer_loop fuel (backwardIter d limit (Some e)) f st =
      Some (visit f (e :: rev pre) st).
Proof.
  induction pre as [| x pre IH] using rev_ind; intros e post fuel st Hentries Hfuel;
    (destruct fuel as [| fuel]; [lia |]);
    cbn [WalkMemBuffer_loop]; cbn [Iterator_Valid Iterator_Key Iterator_Value
      Iterator_Next memDbIter_Iterator];
    change (memDbIter_Valid (backwardIter d limit (Some e))) with true;
    change (memDbIter_Key (backwardIter d limit (Some e))) with (fst e);
    change (memDbIter_Value (backwardIter d limit (Some e))) with (snd e);
    cbv iota.
  - cbn [rev visit].
    destruct (f (fst e) (snd e) st) as [st' [failed |]]; cbn [fst snd Trace];
      try reflexivity.
    rewrite (backwardIter_Next d limit [] e _ Hentries). cbn [fst snd head rev].
    destruct fuel as [| fuel]; [simpl in Hfuel; lia | reflexivity].
  - rewrite rev_app_distr. cbn [rev app visit].
    destruct (f (fst e) (snd e) st) as [st' [failed |]]; cbn [fst snd Trace];
      try reflexivity.
    rewrite (backwardIter_Next d limit (pre ++ [x]) e _ Hentries).
    rewrite rev_app_distr. cbn [fst snd head rev app].
    apply (IH x (e :: post)).
    + now rewrite Hentries, <- app_assoc.
    + rewrite length_app in Hfuel. simpl in Hfuel. lia.
Qed.

Lemma loop_at_the_end (i : memDbIter) fuel st :
  memDbIter_Valid i = false ->
  WalkMemBuffer_loop (S fuel) i f st = Some (st, None).
Proof.
  intros Hend. cbn [WalkMemBuffer_loop Iterator_Valid memDbIter_Iterator].
  now rewrite Hend.
Qed.

(** The loop from where [Seek] starts: the entries from [k] on. *)
Lemma loop_from_Seek (d : DB) k fuel st :
  size d < fuel ->
  WalkMemBuffer_loop fuel
    (forwardIter d k (head (List.filter (fromStart k) (db_entries d)))) f st =
    Some (visit f (List.filter (fromStart k) (db_entries d)) st).
Proof.
  intros Hfuel. rewrite <- db_entries_length in Hfuel.
  pose proof (proj1 (entries_partition d k)) as Hsplit.
  destruct (List.filter (fromStart k) (db_entries d)) as [| e post] eqn:Hpost.
  - destruct fuel as [| fuel]; [lia |]. now apply loop_at_the_end.
  - apply (loop_forward d k post _ e fuel st Hsplit).
    rewrite Hsplit, length_app in Hfuel. simpl in Hfuel. lia.
Qed.

(** The loop from where [SeekReverse] starts: the entries below [k], from
    the last one back. *)
Lemma loop_from_SeekReverse (d : DB) k fuel st :
  size d < fuel ->
  WalkMemBuffer_loop fuel
    (backwardIter d k (head (rev (List.filter (belowLimit k) (db_entries d))))) f st =
    Some (visit f (rev (List.filter (belowLimit k) (db_entries d))) st).
Proof.
  intros Hfuel. rewrite <- db_entries_length in Hfuel.
  pose proof (proj2 (entries_partition d k)) as Hsplit.
  assert (Hbelow : List.filter (belowLimit k) (db_entries d) =
                   rev (rev (List.filter (belowLimit k) (db_entries d))))
    by now rewrite rev_involutive.
  destruct (rev (List.filter (belowLimit k) (db_entries d))) as [| x r] eqn:Hrev.
  - destruct fuel as [| fuel]; [lia |]. now apply loop_at_the_end.
  - cbn [head]. rewrite Hbelow in Hsplit. cbn [rev] in Hsplit.
    rewrite <- app_assoc in Hsplit. cbn [app] in Hsplit.
    rewrite <- (rev_involutive r).
    apply (loop_backward d k (rev r) x _ fuel st Hsplit).
    rewrite Hsplit, length_app in Hfuel. simpl in Hfuel. lia.
Qed.

End Loops.

Lemma In_fromStart (d : DB) k key v :
  In (key, v) (List.filter (fromStart k) (db_entries d)) <->
  d !! key = Some v /\ fromStart k (key, v) = true.
Proof. now rewrite filter_In, db_entries_lookup. Qed.

Lemma In_belowLimit (d : DB) k key v :
  In (key, v) (List.filter (belowLimit k) (db_entries d)) <->
  d !! key = Some v /\ belowLimit k (key, v) = true.
Proof. now rewrite filter_In, db_entries_lookup. Qed.

Lemma fromStart_ascending (d : DB) k :
  ascending (List.filter (fromStart k) (db_entries d)).
Proof.
  pose proof (db_entries_ascending d) as Hsorted.
  rewrite (proj1 (entries_partition d k)) in Hsorted.
  now destruct (ascending_app _ _ Hsorted) as (_ & Hpost & _).
Qed.

Lemma belowLimit_ascending (d : DB) k :
  ascending (List.filter (belowLimit k) (db_entries d)).
Proof.
  pose proof (db_entries_ascending d) as Hsorted.
  rewrite (proj2 (entries_partition d k)) in Hsorted.
  now destruct (ascending_app _ _ Hsorted) as (Hpre & _ & _).
Qed.

Lemma descending_snoc l e :
  descending l -> (forall x, In x l -> Key_ltb (fst e) (fst x) = true) ->
  descending (l ++ [e]).
Proof.
  unfold descending. induction 1 as [| x l Hl IH Hx]; intros He; simpl.
  - repeat constructor.
  - constructor.
    + apply IH. intros y Hy. apply He. simpl. auto.
    + apply Forall_app. split; [assumption |].
      constructor; [| constructor]. apply He. simpl. auto.
Qed.

Lemma ascending_rev l : ascending l -> descending (rev l).
Proof.
  induction l as [| e l IH]; intros Hsorted; [constructor |].
  destruct (ascending_cons _ _ Hsorted) as [Hrest He]. simpl.
  apply descending_snoc; [now apply IH |].
  intros x Hx. apply He. now apply in_rev.
Qed.

(** X23. [Seek] never fails. The iterator it returns is on the buffered
    entry with the least key that is not below [k] (with [k == nil], the
    least key of the buffer), and it is not valid exactly when the buffer
    holds no such key. *)
Theorem memDbBuffer_Seek_finds_the_least_key_from_k :
  forall (m : memDbBuffer) (k : option Key),
  exists it,
    memDbBuffer_Seek m k = (Some it, None) /\
    (memDbIter_Valid it = false ->
     forall key v, db m !! key = Some v -> fromStart k (key, v) = false) /\
    (memDbIter_Valid it = true ->
     db m !! memDbIter_Key it = Some (memDbIter_Value it) /\
     fromStart k (memDbIter_Key it, memDbIter_Value it) = true /\
     forall key v,
       db m !! key = Some v -> fromStart k (key, v) = true ->
       Key_leb (memDbIter_Key it) key = true).
Proof.
  intros m k. eexists. split; [apply memDbBuffer_Seek_run |].
  pose proof (fromStart_ascending (db m) k) as Hsorted.
  pose proof (In_fromStart (db m) k) as Hin.
  destruct (List.filter (fromStart k) (db_entries (db m))) as [| [key0 v0] post];
    cbn; split; try discriminate.
  - intros _ key v Hkey. destruct (fromStart k (key, v)) eqn:Hfrom; [| reflexivity].
    destruct (proj2 (Hin key v) (conj Hkey Hfrom)).
  - intros _. destruct (proj1 (Hin key0 v0)) as [Hkey0 Hfrom0]; [simpl; auto |].
    repeat split; try assumption.
    intros key v Hkey Hfrom.
    destruct (proj2 (Hin key v) (conj Hkey Hfrom)) as [[= <- <-] | Hpost].
    + apply Key_leb_refl.
    + apply Key_ltb_leb. now apply (proj2 (ascending_cons _ _ Hsorted) (key, v)).
Qed.

(** X24. [SeekReverse] never fails. The iterator it returns is on the
    buffered entry with the greatest key below [k] (with [k == nil], the
    greatest key of the buffer), and it is not valid exactly when the buffer
    holds no such key; with the empty, non-nil key it is never valid. *)
Theorem memDbBuffer_SeekReverse_finds_the_greatest_key_below_k :
  forall (m : memDbBuffer) (k : option Key),
  exists it,
    memDbBuffer_SeekReverse m k = (Some it, None) /\
    (memDbIter_Valid it = false ->
     forall key v, db m !! key = Some v -> belowLimit k (key, v) = false) /\
    (memDbIter_Valid it = true ->
     db m !! memDbIter_Key it = Some (memDbIter_Value it) /\
     belowLimit k (memDbIter_Key it, memDbIter_Value it) = true /\
     forall key v,
       db m !! key = Some v -> belowLimit k (key, v) = true ->
       Key_leb key (memDbIter_Key it) = true) /\
    (k = Some [] -> memDbIter_Valid it = false).
Proof.
  intros m k. eexists. split; [apply memDbBuffer_SeekReverse_run |].
  pose proof (ascending_rev _ (belowLimit_ascending (db m) k)) as Hsorted.
  assert (Hin : forall key v,
             In (key, v) (rev (List.filter (belowLimit k) (db_entries (db m)))) <->
             db m !! key = Some v /\ belowLimit k (key, v) = true)
    by (intros key v; rewrite <- in_rev; apply In_belowLimit).
  destruct (rev (List.filter (belowLimit k) (db_entries (db m)))) as [| [key0 v0] pre];
    cbn; repeat split; try discriminate; try reflexivity.
  - intros _ key v Hkey. destruct (belowLimit k (key, v)) eqn:Hbelow; [| reflexivity].
    destruct (proj2 (Hin key v) (conj Hkey Hbelow)).
  - now destruct (proj1 (Hin key0 v0)) as [Hkey0 _]; [simpl; auto |].
  - now destruct (proj1 (Hin key0 v0)) as [_ Hbelow0]; [simpl; auto |].
  - intros key v Hkey Hbelow.
    destruct (proj2 (Hin key v) (conj Hkey Hbelow)) as [[= <- <-] | Hpre].
    + apply Key_leb_refl.
    + apply Key_ltb_leb. apply StronglySorted_inv in Hsorted as [_ Hfirst].
      rewrite List.Forall_forall in Hfirst. apply (Hfirst (key, v) Hpre).
  - intros ->. destruct (proj1 (Hin key0 v0)) as [_ Hbelow0]; [simpl; auto |].
    simpl in Hbelow0. now rewrite Key_ltb_nil in Hbelow0.
Qed.

(** X25. Stepping with [Next] from where [Seek] starts, as the loop of
    [WalkMemBuffer] does, goes through the buffered entries with a key not
    below [k], each once, in ascending order of the keys, and ends; a
    number of rounds above the number of entries is enough. *)
Theorem iteration_from_Seek_is_ascending :
  forall (m : memDbBuffer) (k : option Key) (St : Type)
         (f : Key -> Value -> St -> St * option error) (st : St) (fuel : nat),
    size (db m) < fuel ->
    exists it entries,
      memDbBuffer_Seek m k = (Some it, None) /\
      ascending entries /\
      (forall key v,
          In (key, v) entries <-> db m !! key = Some v /\ fromStart k (key, v) = true) /\
      WalkMemBuffer_loop fuel it f st = Some (visit f entries st).
Proof.
  intros m k St f st fuel Hfuel.
  exists (forwardIter (db m) k (head (List.filter (fromStart k) (db_entries (db m))))),
         (List.filter (fromStart k) (db_entries (db m))).
  split; [apply memDbBuffer_Seek_run |].
  split; [apply fromStart_ascending |].
  split; [apply In_fromStart |].
  now apply loop_from_Seek.
Qed.

(** X26. Stepping with [Next] from where [SeekReverse] starts goes through
    the buffered entries with a key below [k], each once, in descending
    order of the keys, and ends. *)
Theorem iteration_from_SeekReverse_is_descending :
  forall (m : memDbBuffer) (k : option Key) (St : Type)
         (f : Key -> Value -> St -> St * option error) (st : St) (fuel : nat),
    size (db m) < fuel ->
    exists it entries,
      memDbBuffer_SeekReverse m k = (Some it, None) /\
      descending entries /\
      (forall key v,
          In (key, v) entries <-> db m !! key = Some v /\ belowLimit k (key, v) = true) /\
      WalkMemBuffer_loop fuel it f st = Some (visit f entries st).
Proof.
  intros m k St f st fuel Hfuel.
  exists (backwardIter (db m) k
            (head (rev (List.filter (belowLimit k) (db_entries (db m)))))),
         (rev (List.filter (belowLimit k) (db_entries (db m)))).
  split; [apply memDbBuffer_SeekReverse_run |].
  split; [apply ascending_rev, belowLimit_ascending |].
  split; [intros key v; rewrite <- in_rev; apply In_belowLimit |].
  now apply loop_from_SeekReverse.
Qed.

(** The run of [WalkMemBuffer] on a [memDbBuffer]. *)
Lemma WalkMemBuffer_run (m : memDbBuffer) {St : Type}
    (f : Key -> Value -> St -> St * option error) (st : St) (fuel : nat) :
  size (db m) < fuel ->
  WalkMemBuffer fuel m f st = Some (Go.Returns (visit f (db_entries (db m)) st)).
Proof.
  intros Hfuel. unfold WalkMemBuffer. cbn [Seek memDbBuffer_Seeker].
  rewrite memDbBuffer_Seek_run. cbn [fst snd].
  rewrite (loop_from_Seek f (db m) None fuel st Hfuel).
  unfold fromStart. now rewrite (filter_all (fun _ => true)) by auto.
Qed.

(** X27. [WalkMemBuffer] calls [f] on every buffered pair, each once, in
    ascending order of the keys, up to the first pair on which [f] fails;
    it returns that error under [errors.Trace], or [nil] when [f] never
    fails. A number of rounds above the number of entries is enough. *)
Theorem WalkMemBuffer_visits_the_buffer_in_key_order :
  forall (m : memDbBuffer) (St : Type)
         (f : Key -> Value -> St -> St * option error) (st : St) (fuel : nat),
    size (db m) < fuel ->
    exists entries,
      ascending entries /\
      (forall key v, In (key, v) entries <-> db m !! key = Some v) /\
      WalkMemBuffer fuel m f st = Some (Go.Returns (visit f entries st)).
Proof.
  intros m St f st fuel Hfuel. exists (db_entries (db m)).
  split; [apply db_entries_ascending |].
  split; [intros key v; apply db_entries_lookup |].
  now apply WalkMemBuffer_run.
Qed.

(** The run of [SaveTo] from a [memDbBuffer]. *)
Lemma BufferStore_SaveTo_run {R M : Type} `{Mutator M} (m : memDbBuffer) (store : R)
    (target : M) (fuel : nat) :
  size (db m) < fuel ->
  BufferStore_SaveTo fuel {| MemBuffer := m; r := store |} target =
    Some (Go.Returns (fst (visit save (db_entries (db m)) target),
                      Trace (Trace (snd (visit save (db_entries (db m)) target))))).
Proof.
  intros Hfuel. unfold BufferStore_SaveTo, BufferStore_WalkBuffer. cbn [MemBuffer].
  now rewrite (WalkMemBuffer_run m save target fuel Hfuel).
Qed.

(** X28. [SaveTo] goes through the buffered pairs in ascending order of the
    keys and, on the mutator, deletes the key of a pair with a value of
    length zero and sets the others; it stops at the first error of the
    mutator, which it returns under four [errors.Trace], and what was saved
    before stays saved. *)
Theorem BufferStore_SaveTo_replays_the_buffer :
  forall (R M : Type) `{Mutator M} (m : memDbBuffer) (store : R) (target : M)
         (fuel : nat),
    size (db m) < fuel ->
    exists entries,
      ascending entries /\
      (forall key v, In (key, v) entries <-> db m !! key = Some v) /\
      BufferStore_SaveTo fuel {| MemBuffer := m; r := store |} target =
        Some (Go.Returns (fst (visit save entries target),
                          Trace (Trace (snd (visit save entries target))))).
Proof.
  intros R M HM m store target fuel Hfuel. exists (db_entries (db m)).
  split; [apply db_entries_ascending |].
  split; [intros key v; apply db_entries_lookup |].
  now apply BufferStore_SaveTo_run.
Qed.

(** ** Writes to the buffer and their limits *)

(** The four ways [Set] ends. *)
Lemma memDbBuffer_Set_cases (m : memDbBuffer) (k : Key) (v : Value) :
  let m' := with_db m (<[k := v]> (db m)) in
  (v = [] /\
   memDbBuffer_Set m k v = (m, Some (Traced (Terror ErrCannotSetNilValue)))) \/
  (v <> [] /\ (len k + len v > entrySizeLimit m)%Z /\
   memDbBuffer_Set m k v =
     (m, Some (Gen ErrEntryTooLarge "entry too large, size: %d" (len k + len v)))) \/
  (v <> [] /\ (len k + len v <= entrySizeLimit m)%Z /\
   (Size m' > bufferSizeLimit m)%Z /\
   memDbBuffer_Set m k v =
     (m', Some (Gen ErrTxnTooLarge "transaction too large, size:%d" (Size m')))) \/
  (v <> [] /\ (len k + len v <= entrySizeLimit m)%Z /\
   (Size m' <= bufferSizeLimit m)%Z /\ (Len m' > int (bufferLenLimit m))%Z /\
   memDbBuffer_Set m k v =
     (m', Some (Gen ErrTxnTooLarge "transaction too large, len:%d" (Len m')))) \/
  (v <> [] /\ (len k + len v <= entrySizeLimit m)%Z /\
   (Size m' <= bufferSizeLimit m)%Z /\ (Len m' <= int (bufferLenLimit m))%Z /\
   memDbBuffer_Set m k v = (m', None)).
Proof.
  intros m'. unfold memDbBuffer_Set. fold m'.
  destruct (len v =? 0)%Z eqn:Hv.
  { left. split; [| reflexivity]. apply len_0 in Hv. now destruct v. }
  assert (Hne : v <> []) by (intros ->; discriminate Hv).
  right. destruct (len k + len v >? entrySizeLimit m)%Z eqn:Hentry.
  { left. repeat split; try assumption. apply Z.gtb_lt in Hentry. lia. }
  assert (Hfits : (len k + len v <= entrySizeLimit m)%Z).
  { destruct (Z.gtb_spec (len k + len v) (entrySizeLimit m)); [discriminate | lia]. }
  right. cbn [db_Put fst snd]. fold m'.
  change (bufferSizeLimit m') with (bufferSizeLimit m).
  change (bufferLenLimit m') with (bufferLenLimit m).
  destruct (Z.gtb_spec (Size m') (bufferSizeLimit m)) as [Hsize | Hsize].
  { left. repeat split; try assumption. lia. }
  right. destruct (Z.gtb_spec (Len m') (int (bufferLenLimit m))) as [Hlen | Hlen].
  { left. repeat split; try assumption. lia. }
  right. repeat split; assumption.
Qed.

(** X13. A [Set] that returns no error has stored the value: [Get] on the
    key gives it back, without an error. *)
Theorem memDbBuffer_Get_after_Set :
  forall (m : memDbBuffer) (k : Key) (v : Value),
    snd (memDbBuffer_Set m k v) = None ->
    memDbBuffer_Get (fst (memDbBuffer_Set m k v)) k = (v, None).
Proof.
  intros m k v.
  destruct (memDbBuffer_Set_cases m k v)
    as [[_ ->] | [(_ & _ & ->) | [(_ & _ & _ & ->) | [(_ & _ & _ & _ & ->) | (_ & _ & _ & _ & ->)]]]];
    cbn [fst snd]; try discriminate.
  intros _. unfold memDbBuffer_Get, db_Get. cbn [db with_db].
  now rewrite lookup_insert_eq.
Qed.

(** X14. [Set] and [Delete] touch the entry of their key only: whatever
    they return, [Get] on any other key gives what it gave before. *)
Theorem memDbBuffer_writes_touch_their_key_only :
  forall (m : memDbBuffer) (k k' : Key) (v : Value),
    k' <> k ->
    memDbBuffer_Get (fst (memDbBuffer_Set m k v)) k' = memDbBuffer_Get m k' /\
    memDbBuffer_Get (fst (memDbBuffer_Delete m k)) k' = memDbBuffer_Get m k'.
Proof.
  intros m k k' v Hne. split.
  - destruct (memDbBuffer_Set_cases m k v)
      as [[_ ->] | [(_ & _ & ->) | [(_ & _ & _ & ->) | [(_ & _ & _ & _ & ->) | (_ & _ & _ & _ & ->)]]]];
      cbn [fst]; try reflexivity;
      unfold memDbBuffer_Get, db_Get; cbn [db with_db];
      now rewrite lookup_insert_ne by congruence.
  - unfold memDbBuffer_Get, memDbBuffer_Delete, db_Get, db_Put. cbn [db with_db fst].
    now rewrite lookup_insert_ne by congruence.
Qed.

(** X15. [Set] refuses a pair of a key and a non-empty value whose lengths
    add up to more than the entry size limit: it returns [ErrEntryTooLarge]
    with that size and leaves the buffer as it was. It returns that error
    in no other case; a pair of exactly the limit is not refused for its
    size. *)
Theorem memDbBuffer_Set_refuses_an_entry_above_the_limit :
  forall (m : memDbBuffer) (k : Key) (v : Value),
    (v <> [] -> (len k + len v > entrySizeLimit m)%Z ->
     memDbBuffer_Set m k v =
       (m, Some (Gen ErrEntryTooLarge "entry too large, size: %d" (len k + len v)))) /\
    (forall format size,
        snd (memDbBuffer_Set m k v) = Some (Gen ErrEntryTooLarge format size) ->
        v <> [] /\ (len k + len v > entrySizeLimit m)%Z /\
        size = (len k + len v)%Z /\ fst (memDbBuffer_Set m k v) = m).
Proof.
  intros m k v.
  destruct (memDbBuffer_Set_cases m k v)
    as [[Hv ->] | [(Hv & Hentry & ->) | [(Hv & Hentry & _ & ->) | [(Hv & Hentry & _ & _ & ->) | (Hv & Hentry & _ & _ & ->)]]]];
    cbn [fst snd]; split; try (intros; contradiction || lia || discriminate).
  - reflexivity.
  - intros format size [= <- <-]. auto.
Qed.

(** X16. [ErrTxnTooLarge] is reported after the write, and the write is
    not taken back: when [Set] returns it, the buffer holds the value, and
    its size or its number of entries is above the limit. *)
Theorem memDbBuffer_Set_reports_a_full_buffer_after_writing :
  forall (m : memDbBuffer) (k : Key) (v : Value) format n,
    snd (memDbBuffer_Set m k v) = Some (Gen ErrTxnTooLarge format n) ->
    memDbBuffer_Get (fst (memDbBuffer_Set m k v)) k = (v, None) /\
    ((Size (fst (memDbBuffer_Set m k v)) > bufferSizeLimit m)%Z \/
     (Len (fst (memDbBuffer_Set m k v)) > int (bufferLenLimit m))%Z).
Proof.
  intros m k v format n.
  destruct (memDbBuffer_Set_cases m k v)
    as [[_ ->] | [(_ & _ & ->) | [(_ & _ & Hsize & ->) | [(_ & _ & _ & Hlen & ->) | (_ & _ & _ & _ & ->)]]]];
    cbn [fst snd]; try discriminate; intros _;
    (split; [unfold memDbBuffer_Get, db_Get; cbn [db with_db];
             now rewrite lookup_insert_eq | auto]).
Qed.

(** X17. After a [Set] that returns no error the buffer is within its
    limits: the pair is within the entry size limit, and the size of the
    buffer and its number of entries are within theirs. *)
Theorem memDbBuffer_Set_keeps_the_limits :
  forall (m : memDbBuffer) (k : Key) (v : Value),
    snd (memDbBuffer_Set m k v) = None ->
    v <> [] /\
    (len k + len v <= entrySizeLimit m)%Z /\
    (Size (fst (memDbBuffer_Set m k v)) <= bufferSizeLimit m)%Z /\
    (Len (fst (memDbBuffer_Set m k v)) <= int (bufferLenLimit m))%Z.
Proof.
  intros m k v.
  destruct (memDbBuffer_Set_cases m k v)
    as [[_ ->] | [(_ & _ & ->) | [(_ & _ & _ & ->) | [(_ & _ & _ & _ & ->) | (Hv & Hentry & Hsize & Hlen & ->)]]]];
    cbn [fst snd]; try discriminate.
  auto.
Qed.

Lemma db_Size_insert_new (d : DB) k v :
  d !! k = None -> db_Size (<[k := v]> d) = (len k + len v + db_Size d)%Z.
Proof.
  intros Hnew. unfold db_Size.
  apply (map_fold_insert_L (fun k v n => (len k + len v + n)%Z)); [| assumption].
  intros. lia.
Qed.

Lemma db_Size_insert (d : DB) k v :
  db_Size (<[k := v]> d) =
  match d !! k with
  | Some old => (db_Size d - len old + len v)%Z
  | None => (db_Size d + len k + len v)%Z
  end.
Proof.
  destruct (d !! k) as [old |] eqn:Hk.
  - rewrite <- (insert_delete_eq d k v).
    rewrite <- (insert_delete_id d k old Hk) at 2.
    rewrite !db_Size_insert_new by apply lookup_delete_eq. lia.
  - rewrite db_Size_insert_new by assumption. lia.
Qed.

Lemma db_Len_insert (d : DB) k v :
  db_Len (<[k := v]> d) =
  match d !! k with
  | Some _ => db_Len d
  | None => (db_Len d + 1)%Z
  end.
Proof.
  unfold db_Len. destruct (d !! k) as [old |] eqn:Hk.
  - now rewrite (map_size_insert_Some k v d) by eauto.
  - rewrite (map_size_insert_None k v d) by assumption. lia.
Qed.

(** X18. What a write costs. A [Set] that writes (its value is not empty
    and the pair is within the entry size limit) and a [Delete] add an
    entry when the key was not buffered, and the lengths of the key and of
    the value to the size; on a buffered key they keep the number of entries
    and change the size by the difference of the lengths of the values. A
    deletion of a key that was not buffered makes the buffer larger. *)
Theorem memDbBuffer_writes_and_the_size_of_the_buffer :
  forall (m : memDbBuffer) (k : Key) (v : Value),
    (v <> [] -> (len k + len v <= entrySizeLimit m)%Z ->
     Len (fst (memDbBuffer_Set m k v)) =
       match db m !! k with Some _ => Len m | None => (Len m + 1)%Z end /\
     Size (fst (memDbBuffer_Set m k v)) =
       match db m !! k with
       | Some old => (Size m - len old + len v)%Z
       | None => (Size m + len k + len v)%Z
       end) /\
    Len (fst (memDbBuffer_Delete m k)) =
      match db m !! k with Some _ => Len m | None => (Len m + 1)%Z end /\
    Size (fst (memDbBuffer_Delete m k)) =
      match db m !! k with
      | Some old => (Size m - len old)%Z
      | None => (Size m + len k)%Z
      end.
Proof.
  intros m k v. split; [| split].
  - intros Hv Hentry.
    assert (Hwritten : fst (memDbBuffer_Set m k v) = with_db m (<[k := v]> (db m))).
    { destruct (memDbBuffer_Set_cases m k v)
        as [[Hnil _] | [(_ & Hlarge & _) | [(_ & _ & _ & ->) | [(_ & _ & _ & _ & ->) | (_ & _ & _ & _ & ->)]]]];
        try reflexivity; [contradiction | lia]. }
    rewrite Hwritten. unfold Len, Size. cbn [db with_db].
    now rewrite db_Len_insert, db_Size_insert.
  - unfold memDbBuffer_Delete, db_Put, Len. cbn [db with_db fst].
    apply db_Len_insert.
  - unfold memDbBuffer_Delete, db_Put, Size. cbn [db with_db fst].
    rewrite db_Size_insert. destruct (db m !! k); unfold len; simpl; lia.
Qed.

(** X19. The limit on the number of entries is a [uint64] that [Set]
    compares as an [int]: a limit of 2^63 or more turns negative, and then
    no [Set] returns without an error. *)
Theorem memDbBuffer_Set_fails_under_a_count_limit_above_int :
  forall (m : memDbBuffer) (k : Key) (v : Value),
    (2 ^ 63 <= bufferLenLimit m < 2 ^ 64)%Z ->
    snd (memDbBuffer_Set m k v) <> None.
Proof.
  intros m k v Hlimit.
  assert (Hneg : (int (bufferLenLimit m) < 0)%Z).
  { unfold int.
    replace ((bufferLenLimit m + 2 ^ 63) mod 2 ^ 64)%Z
      with (bufferLenLimit m + 2 ^ 63 - 2 ^ 64)%Z; [lia |].
    apply Z.mod_unique with (q := 1%Z); lia. }
  destruct (memDbBuffer_Set_cases m k v)
    as [[_ ->] | [(_ & _ & ->) | [(_ & _ & _ & ->) | [(_ & _ & _ & _ & ->) | (_ & _ & _ & Hlen & _)]]]];
    cbn [snd]; try discriminate.
  unfold Len, db_Len in Hlen. lia.
Qed.

(** ** The buffer under a store *)

Lemma memDbBuffer_Set_written (m : memDbBuffer) (k : Key) (v : Value) :
  snd (memDbBuffer_Set m k v) = None ->
  v <> [] /\ fst (memDbBuffer_Set m k v) = with_db m (<[k := v]> (db m)).
Proof.
  destruct (memDbBuffer_Set_cases m k v)
    as [[_ ->] | [(_ & _ & ->) | [(_ & _ & _ & ->) | [(_ & _ & _ & _ & ->) | (Hv & _ & _ & _ & ->)]]]];
    cbn [fst snd]; try discriminate.
  auto.
Qed.

Lemma len_nonempty {A} (s : list A) : s <> [] -> (len s =? 0)%Z = false.
Proof. intros Hs. apply Z.eqb_neq. unfold len. destruct s; [contradiction | simpl; lia]. Qed.

(** X21. A store reads its own writes: after a [Set] on the buffer that
    returned no error, [Get] on the store gives the value from the buffer and
    does not ask the retriever. *)
Theorem BufferStore_Get_reads_a_buffered_write :
  forall (R : Type) `{Retriever R} (IsErrNotFound : option error -> bool)
         (m : memDbBuffer) (store : R) (k : Key) (v : Value) (log : list Call),
    IsErrNotFound None = false ->
    snd (memDbBuffer_Set m k v) = None ->
    BufferStore_Get IsErrNotFound
      {| MemBuffer := fst (memDbBuffer_Set m k v); r := store |} k log =
      (Go.Returns (v, None), log ++ [MemBuffer_Get k]).
Proof.
  intros R HR IsErrNotFound m store k v log Hnil Hok.
  destruct (memDbBuffer_Set_written m k v Hok) as [Hv ->].
  rewrite BufferStore_Get_run. cbn [MemBuffer Get memDbBuffer_Retriever].
  unfold memDbBuffer_Get, db_Get. cbn [db with_db]. rewrite lookup_insert_eq.
  cbn [fst snd]. rewrite Hnil. cbn [fst snd]. now rewrite (len_nonempty v Hv).
Qed.

(** X22. For a key that the buffer does not hold, [Get] on the store is
    [Get] on the retriever: its error comes back under [errors.Trace], its
    value as it is, but for a value of length zero, which gives
    [ErrNotExist]. The retriever is asked once, after the buffer. *)
Theorem BufferStore_Get_falls_back_to_the_retriever :
  forall (R : Type) `{Retriever R} (IsErrNotFound : option error -> bool)
         (m : memDbBuffer) (store : R) (k : Key) (log : list Call),
    IsErrNotFound (Some (Terror ErrNotExist)) = true ->
    db m !! k = None ->
    BufferStore_Get IsErrNotFound {| MemBuffer := m; r := store |} k log =
      (Go.Returns
         match snd (Get store k) with
         | Some e => ([], Some (Traced e))
         | None =>
             if (len (fst (Get store k)) =? 0)%Z
             then ([], Some (Terror ErrNotExist))
             else (fst (Get store k), None)
         end,
       log ++ [MemBuffer_Get k; r_Get k]).
Proof.
  intros R HR IsErrNotFound m store k log Hmissing Habsent.
  rewrite BufferStore_Get_run. cbn [MemBuffer r Get memDbBuffer_Retriever].
  unfold memDbBuffer_Get, db_Get. rewrite Habsent. cbn [fst snd].
  now rewrite Hmissing.
Qed.

Lemma visit_save_all (entries : list (Key * Value)) :
  forall target target' : memDbBuffer,
    NoDup (map fst entries) ->
    visit save entries target = (target', None) ->
    db target' = list_to_map entries ∪ db target.
Proof.
  induction entries as [| [k v] entries IH]; intros target target' Hnodup.
  - cbn [visit]. intros [= <-]. simpl. now rewrite (left_id_L ∅ (∪)).
  - apply NoDup_cons in Hnodup as [Hfresh Hnodup].
    assert (Hstep : forall t : memDbBuffer,
               db t = <[k := v]> (db target) ->
               visit save entries t = (target', None) ->
               db target' = list_to_map ((k, v) :: entries) ∪ db target).
    { intros t Ht Hrest. rewrite (IH t target' Hnodup Hrest), Ht. cbn [list_to_map foldr].
      cbn [fst snd uncurry].
      rewrite <- insert_union_l, <- insert_union_r; [reflexivity |].
      now apply not_elem_of_list_to_map_1. }
    cbn [visit fst snd]. unfold save at 1 2.
    cbn [Mutator_Set Mutator_Delete memDbBuffer_Mutator].
    destruct (len v =? 0)%Z eqn:Hv.
    + apply len_0 in Hv. destruct v; [| discriminate Hv].
      cbn [memDbBuffer_Delete db_Put fst snd Trace]. unfold save.
      cbn [Mutator_Delete memDbBuffer_Mutator memDbBuffer_Delete db_Put fst snd].
      rewrite Z.eqb_refl. cbn [fst snd]. now apply Hstep.
    + cbn [fst snd]. destruct (snd (memDbBuffer_Set target k v)) as [e |] eqn:Hset;
        cbn [Trace]; [discriminate |].
      destruct (memDbBuffer_Set_written target k v Hset) as [_ Hwritten].
      unfold save. cbn [Mutator_Set memDbBuffer_Mutator]. rewrite Hv. cbn [fst].
      apply Hstep. now rewrite Hwritten.
Qed.

(** X29. A [SaveTo] into a [memDbBuffer] that returns no error leaves the
    target with every pair of the buffer, delete markers included, and with
    the pairs it had under the other keys. *)
Theorem BufferStore_SaveTo_copies_the_buffer :
  forall (R : Type) (m : memDbBuffer) (store : R) (target target' : memDbBuffer)
         (fuel : nat),
    size (db m) < fuel ->
    BufferStore_SaveTo fuel {| MemBuffer := m; r := store |} target =
      Some (Go.Returns (target', None)) ->
    db target' = db m ∪ db target.
Proof.
  intros R m store target target' fuel Hfuel.
  rewrite (BufferStore_SaveTo_run m store target fuel Hfuel).
  destruct (visit save (db_entries (db m)) target) as [t [e |]] eqn:Hvisit;
    cbn [fst snd Trace]; [discriminate |].
  intros [= <-].
  rewrite <- (db_entries_to_map (db m)) at 1.
  apply visit_save_all; [apply db_entries_NoDup | exact Hvisit].
Qed.

(** ** The further properties on the scenarios *)

Lemma scenario_guard_finds_the_join :
  existsCartesianProduct nested = true /\ hasCartesianJoin nested = true.
Proof.
  split; [reflexivity |]. apply (existsCartesianProduct_sound nested). reflexivity.
Defined.

Lemma scenario_guard_is_exact_without_opaque_joins :
  existsb opaqueJoin (nodes nested) = false /\
  existsCartesianProduct nested = hasCartesianJoin nested.
Proof.
  split; [reflexivity |]. apply (existsCartesianProduct_exact nested). reflexivity.
Defined.

Lemma scenario_records_after_the_denied_one :
  forallb (verified denyT) [selectOn "U"] = true /\
  verified denyT (selectOn "T") = false /\
  checkPrivilege denyT ([selectOn "U"] ++ selectOn "T" :: [selectOn "V"]) [] =
    (Go.Returns false,
     [] ++ map pm_RequestVerification ([selectOn "U"] ++ [selectOn "T"])).
Proof.
  split; [reflexivity |]. split; [reflexivity |].
  apply (checkPrivilege_stops_at_the_first_denied_record
           denyT [selectOn "U"] (selectOn "T") [selectOn "V"] [] eq_refl eq_refl).
Defined.

Lemma scenario_malformed_query :
  err (snd (build (Collaborators := guarded) malformed)) = Some (Foreign 3) /\
  Go.run (Optimize (H := guarded) malformed) =
    (Go.Returns (None, Some (Traced (Foreign 3))), [SetPlanID 0; builder_build]).
Proof.
  split; [reflexivity |].
  apply (Optimize_returns_the_error_of_the_builder (H := guarded) malformed (Foreign 3)
           eq_refl).
Defined.

Lemma scenario_no_privilege_manager :
  GetPrivilegeManager (Collaborators := permissive) = None /\
  exists calls,
    snd (Go.run (Optimize (H := permissive) readsT)) =
      [SetPlanID 0; builder_build] ++ calls /\
    Forall (fun c => 2 <= phase c) calls.
Proof.
  split; [reflexivity |].
  apply (Optimize_without_privilege_manager_checks_nothing (H := permissive) readsT
           eq_refl).
Defined.

Lemma scenario_prepared_statement :
  err (snd (build (Collaborators := failingHook) prepared)) = None /\
  privilegeGranted (H := failingHook) prepared = true /\
  fst (build (Collaborators := failingHook) prepared) =
    Some (IsExecute {| Name := "stmt" |}) /\
  Go.run (Optimize (H := failingHook) prepared) =
    (Go.Returns (Some (IsExecute {| Name := "stmt" |}), Some (Traced (Foreign 9))),
     [ SetPlanID 0; builder_build; pm_RequestVerification (selectOn "U");
       execPlan_optimizePreparedPlan {| Name := "stmt" |} ]).
Proof.
  split; [reflexivity |]. split; [reflexivity |]. split; [reflexivity |].
  apply (Optimize_returns_a_prepared_plan_with_the_error_of_its_hook (H := failingHook)
           prepared {| Name := "stmt" |} eq_refl eq_refl eq_refl).
Defined.

Lemma scenario_insert :
  err (snd (build (Collaborators := guarded) insertion)) = None /\
  privilegeGranted (H := guarded) insertion = true /\
  Go.run (Optimize (H := guarded) insertion) =
    (Go.Returns (Some (IsOther "Insert"), None),
     [SetPlanID 0; builder_build; pm_RequestVerification (selectOn "U")]).
Proof.
  split; [reflexivity |]. split; [reflexivity |].
  apply (Optimize_returns_other_plans_unchanged (H := guarded) insertion
           eq_refl eq_refl); intros x; discriminate.
Defined.

Lemma scenario_failing_rule_in_doOptimize :
  enabled 255 =
    [columnPruner; projectionEliminater; buildKeySolver] ++
    decorrelateSolver ::
    [maxMinEliminator; ppdSolver; aggregationOptimizer; pushDownTopNOptimizer] /\
  snd (optimize (Collaborators := strict) decorrelateSolver (Some correlated)) =
    Some (Foreign 7) /\
  doOptimize (H := strict) 255 (Some correlated) [] =
    (Go.Returns (None, Some (Traced (Traced (Foreign 7)))),
     [ rule_optimize columnPruner (Some correlated);
       rule_optimize projectionEliminater (Some correlated);
       rule_optimize buildKeySolver (Some correlated) ] ++
     [rule_optimize decorrelateSolver (Some correlated)]).
Proof.
  split; [reflexivity |]. split; [reflexivity |].
  apply (doOptimize_returns_the_error_of_a_failing_rule (H := strict)
           255 (Some correlated) []
           [columnPruner; projectionEliminater; buildKeySolver] decorrelateSolver
           [maxMinEliminator; ppdSolver; aggregationOptimizer; pushDownTopNOptimizer]
           (Some correlated) _ (Foreign 7) eq_refl eq_refl eq_refl).
Defined.

Lemma scenario_error_without_a_plan :
  doOptimize (H := strict) 255 (Some cartesianAB) [] =
    (Go.Returns (None, Some (Traced (Terror ErrCartesianProductUnsupported))),
     allRules cartesianAB ++ [call_existsCartesianProduct cartesianAB]) /\
  (None : option PhysicalPlan) = None.
Proof.
  split; [reflexivity |].
  apply (doOptimize_never_returns_a_plan_with_an_error (H := strict)
           255 (Some cartesianAB) [] None
           (Traced (Terror ErrCartesianProductUnsupported))
           (allRules cartesianAB ++ [call_existsCartesianProduct cartesianAB]) eq_refl).
Defined.

Lemma scenario_failing_statistics_and_search :
  deriveStats (Collaborators := failingStats) equiAB = Some (Foreign 11) /\
  physicalOptimize (H := failingStats) (Some equiAB) [] =
    (Go.Returns (None, Some (Traced (Foreign 11))),
     [] ++ [logic_preparePossibleProperties equiAB; logic_deriveStats equiAB]) /\
  deriveStats (Collaborators := failingSearch) equiAB = None /\
  findBestTask (Collaborators := failingSearch) equiAB rootProp =
    (Some {| invalid := false; plan := Some (implement equiAB) |}, Some (Foreign 12)) /\
  physicalOptimize (H := failingSearch) (Some equiAB) [] =
    (Go.Returns (None, Some (Traced (Foreign 12))),
     [] ++ [ logic_preparePossibleProperties equiAB; logic_deriveStats equiAB;
             logic_findBestTask equiAB rootProp ]).
Proof.
  split; [reflexivity |]. split.
  - apply (proj1 (physicalOptimize_returns_the_errors_of_its_steps (H := failingStats)
                    equiAB [] (Foreign 11)) eq_refl).
  - split; [reflexivity |]. split; [reflexivity |].
    apply (proj2 (physicalOptimize_returns_the_errors_of_its_steps (H := failingSearch)
                    equiAB [] (Foreign 12))
             (Some {| invalid := false; plan := Some (implement equiAB) |})
             eq_refl eq_refl).
Defined.

Lemma scenario_B_under_the_strict_policy :
  logicalOptimize (H := strict) 255 (Some equiAB) [] =
    (Go.Returns (Some equiAB, None), allRules equiAB) /\
  AllowCartesianProduct (Collaborators := strict) = false /\
  existsCartesianProduct equiAB = false /\
  doOptimize (H := strict) 255 (Some equiAB) [] =
    match physicalOptimize (H := strict) (Some equiAB)
            (allRules equiAB ++ [call_existsCartesianProduct equiAB]) with
    | (Go.Returns (physical, None), log2) =>
        (Go.Returns (eliminatePhysicalProjection (Collaborators := strict) physical, None),
         log2 ++ [call_eliminatePhysicalProjection physical])
    | (Go.Returns (_, Some e), log2) => (Go.Returns (None, Some (Traced e)), log2)
    | (Go.Panics, log2) => (Go.Panics, log2)
    end.
Proof.
  split; [reflexivity |]. split; [reflexivity |]. split; [reflexivity |].
  apply (doOptimize_plans_what_passes_the_guard (H := strict)
           255 (Some equiAB) [] equiAB (allRules equiAB) eq_refl eq_refl eq_refl).
Defined.

Lemma scenario_set_then_get :
  snd (kv.memDbBuffer_Set emptyBuffer k1 v1) = None /\
  kv.memDbBuffer_Get (fst (kv.memDbBuffer_Set emptyBuffer k1 v1)) k1 = (v1, None).
Proof.
  split; [vm_compute; reflexivity |].
  apply (memDbBuffer_Get_after_Set emptyBuffer k1 v1). vm_compute. reflexivity.
Defined.

Lemma scenario_other_key :
  k2 <> k1 /\
  kv.memDbBuffer_Get (fst (kv.memDbBuffer_Set holdsK1 k1 [x00])) k2 =
    kv.memDbBuffer_Get holdsK1 k2 /\
  kv.memDbBuffer_Get (fst (kv.memDbBuffer_Delete holdsK1 k1)) k2 =
    kv.memDbBuffer_Get holdsK1 k2.
Proof.
  split; [discriminate |].
  apply (memDbBuffer_writes_touch_their_key_only holdsK1 k1 k2 [x00]). discriminate.
Defined.

Lemma scenario_entry_too_large :
  [x76; x76] <> ([] : list byte) /\
  (kv.len k1 + kv.len [x76; x76] > kv.entrySizeLimit tight)%Z /\
  kv.memDbBuffer_Set tight k1 [x76; x76] =
    (tight, Some (Gen ErrEntryTooLarge "entry too large, size: %d"
                    (kv.len k1 + kv.len [x76; x76]))) /\
  snd (kv.memDbBuffer_Set tight k1 v1) = None.
Proof.
  split; [discriminate |]. split; [reflexivity |]. split; [| vm_compute; reflexivity].
  apply (proj1 (memDbBuffer_Set_refuses_an_entry_above_the_limit tight k1 [x76; x76]));
    [discriminate | reflexivity].
Defined.

Lemma scenario_full_buffer :
  snd (kv.memDbBuffer_Set (fst (kv.memDbBuffer_Set tight k1 v1)) k2 v1) =
    Some (Gen ErrTxnTooLarge "transaction too large, len:%d" 2) /\
  kv.memDbBuffer_Get
    (fst (kv.memDbBuffer_Set (fst (kv.memDbBuffer_Set tight k1 v1)) k2 v1)) k2 =
    (v1, None).
Proof.
  split; [vm_compute; reflexivity |].
  apply (memDbBuffer_Set_reports_a_full_buffer_after_writing
           (fst (kv.memDbBuffer_Set tight k1 v1)) k2 v1
           "transaction too large, len:%d" 2).
  vm_compute. reflexivity.
Defined.

Lemma scenario_within_the_limits :
  snd (kv.memDbBuffer_Set tight k1 v1) = None /\
  (kv.len k1 + kv.len v1 <= kv.entrySizeLimit tight)%Z /\
  (kv.Size (fst (kv.memDbBuffer_Set tight k1 v1)) <= kv.bufferSizeLimit tight)%Z /\
  (kv.Len (fst (kv.memDbBuffer_Set tight k1 v1)) <= kv.int (kv.bufferLenLimit tight))%Z.
Proof.
  split; [vm_compute; reflexivity |].
  apply (memDbBuffer_Set_keeps_the_limits tight k1 v1). vm_compute. reflexivity.
Defined.

Lemma scenario_cost_of_a_write :
  v1 <> [] /\
  (kv.len k1 + kv.len v1 <= kv.entrySizeLimit emptyBuffer)%Z /\
  kv.Len (fst (kv.memDbBuffer_Set emptyBuffer k1 v1)) =
    match kv.db emptyBuffer !! k1 with
    | Some _ => kv.Len emptyBuffer
    | None => (kv.Len emptyBuffer + 1)%Z
    end.
Proof.
  split; [discriminate |]. split; [vm_compute; discriminate |].
  apply (proj1 (memDbBuffer_writes_and_the_size_of_the_buffer emptyBuffer k1 v1));
    [discriminate | vm_compute; discriminate].
Defined.

Lemma scenario_count_limit_above_int :
  (2 ^ 63 <= kv.bufferLenLimit unlimited < 2 ^ 64)%Z /\
  snd (kv.memDbBuffer_Set unlimited k1 v1) <> None.
Proof.
  split; [vm_compute; split; [discriminate | reflexivity] |].
  apply (memDbBuffer_Set_fails_under_a_count_limit_above_int unlimited k1 v1).
  vm_compute. split; [discriminate | reflexivity].
Defined.

Lemma scenario_deleted_key_in_the_store :
  IsErrNotFound None = false /\
  Go.run (kv.BufferStore_Get IsErrNotFound
            {| kv.MemBuffer := fst (kv.memDbBuffer_Delete holdsK1 k1);
               kv.r := {| committed := {[ k1 := v1 ]} |} |} k1) =
    (Go.Returns ([], Some (Terror ErrNotExist)), [kv.MemBuffer_Get k1]).
Proof.
  split; [reflexivity |].
  apply (BufferStore_Get_after_Delete IsErrNotFound holdsK1
           {| committed := {[ k1 := v1 ]} |} k1 eq_refl).
Defined.

Lemma scenario_store_reads_its_write :
  IsErrNotFound None = false /\
  snd (kv.memDbBuffer_Set emptyBuffer k2 v1) = None /\
  kv.BufferStore_Get IsErrNotFound (store (fst (kv.memDbBuffer_Set emptyBuffer k2 v1)))
    k2 [] =
    (Go.Returns (v1, None), [] ++ [kv.MemBuffer_Get k2]).
Proof.
  split; [reflexivity |]. split; [vm_compute; reflexivity |].
  apply (BufferStore_Get_reads_a_buffered_write snapshot IsErrNotFound emptyBuffer
           {| committed := {[ k1 := v1 ]} |} k2 v1 [] eq_refl).
  vm_compute. reflexivity.
Defined.

Lemma scenario_store_falls_back :
  IsErrNotFound (Some (Terror ErrNotExist)) = true /\
  kv.db emptyBuffer !! k1 = None /\
  kv.BufferStore_Get IsErrNotFound (store emptyBuffer) k1 [] =
    (Go.Returns
       match snd (kv.Get {| committed := {[ k1 := v1 ]} |} k1) with
       | Some e => ([], Some (Traced e))
       | None =>
           if (kv.len (fst (kv.Get {| committed := {[ k1 := v1 ]} |} k1)) =? 0)%Z
           then ([], Some (Terror ErrNotExist))
           else (fst (kv.Get {| committed := {[ k1 := v1 ]} |} k1), None)
       end,
     [] ++ [kv.MemBuffer_Get k1; kv.r_Get k1]).
Proof.
  split; [reflexivity |]. split; [reflexivity |].
  apply (BufferStore_Get_falls_back_to_the_retriever snapshot IsErrNotFound emptyBuffer
           {| committed := {[ k1 := v1 ]} |} k1 [] eq_refl eq_refl).
Defined.

Lemma scenario_iteration_from_a_key :
  size (kv.db sample) < 5 /\
  exists it entries,
    kv.memDbBuffer_Seek sample (Some [x61; x00]) = (Some it, None) /\
    kv.ascending entries /\
    (forall key v,
        In (key, v) entries <->
        kv.db sample !! key = Some v /\ kv.fromStart (Some [x61; x00]) (key, v) = true) /\
    kv.WalkMemBuffer_loop 5 it record [] = Some (kv.visit record entries []).
Proof.
  split; [vm_compute; lia |].
  apply (iteration_from_Seek_is_ascending sample (Some [x61; x00]) _ record [] 5).
  vm_compute. lia.
Defined.

Lemma scenario_iteration_back_from_a_key :
  size (kv.db sample) < 5 /\
  exists it entries,
    kv.memDbBuffer_SeekReverse sample (Some [x62]) = (Some it, None) /\
    kv.descending entries /\
    (forall key v,
        In (key, v) entries <->
        kv.db sample !! key = Some v /\ kv.belowLimit (Some [x62]) (key, v) = true) /\
    kv.WalkMemBuffer_loop 5 it record [] = Some (kv.visit record entries []).
Proof.
  split; [vm_compute; lia |].
  apply (iteration_from_SeekReverse_is_descending sample (Some [x62]) _ record [] 5).
  vm_compute. lia.
Defined.

Lemma scenario_walk :
  size (kv.db sample) < 5 /\
  exists entries,
    kv.ascending entries /\
    (forall key v, In (key, v) entries <-> kv.db sample !! key = Some v) /\
    kv.WalkMemBuffer 5 sample stopAtB [] = Some (Go.Returns (kv.visit stopAtB entries [])).
Proof.
  split; [vm_compute; lia |].
  apply (WalkMemBuffer_visits_the_buffer_in_key_order sample _ stopAtB [] 5).
  vm_compute. lia.
Defined.

Lemma scenario_save :
  size (kv.db sample) < 5 /\
  exists entries,
    kv.ascending entries /\
    (forall key v, In (key, v) entries <-> kv.db sample !! key = Some v) /\
    kv.BufferStore_SaveTo 5 (store sample) tight =
      Some (Go.Returns (fst (kv.visit kv.save entries tight),
                        Trace (Trace (snd (kv.visit kv.save entries tight))))).
Proof.
  split; [vm_compute; lia |].
  apply (BufferStore_SaveTo_replays_the_buffer snapshot kv.memDbBuffer sample
           {| committed := {[ k1 := v1 ]} |} tight 5).
  vm_compute. lia.
Defined.

Lemma scenario_save_all :
  size (kv.db sample) < 5 /\
  kv.BufferStore_SaveTo 5 (store sample) holdsK1 =
    Some (Go.Returns (fst (kv.visit kv.save (kv.db_entries (kv.db sample)) holdsK1), None)) /\
  kv.db (fst (kv.visit kv.save (kv.db_entries (kv.db sample)) holdsK1)) =
    kv.db sample ∪ kv.db holdsK1.
Proof.
  split; [vm_compute; lia |].
  assert (Hsaved : kv.BufferStore_SaveTo 5 (store sample) holdsK1 =
            Some (Go.Returns
                    (fst (kv.visit kv.save (kv.db_entries (kv.db sample)) holdsK1), None)))
    by (vm_compute; reflexivity).
  split; [exact Hsaved |].
  apply (BufferStore_SaveTo_copies_the_buffer snapshot sample
           {| committed := {[ k1 := v1 ]} |} holdsK1 _ 5); [vm_compute; lia | exact Hsaved].
Defined.

(** The walks of the scenarios, computed. *)
Example scenario_walks_computed :
  kv.WalkMemBuffer 5 sample record [] =
    Some (Go.Returns
            ([([x61], []); ([x61; x7a], [x02]); ([x62], [x01]); ([xff], [x03; x04])],
             None)) /\
  kv.WalkMemBuffer 5 sample stopAtB [] =
    Some (Go.Returns ([([x61], []); ([x61; x7a], [x02])], Some (Traced (Foreign 5)))) /\
  kv.WalkMemBuffer 4 sample record [] = None /\
  option_map kv.memDbIter_Key (fst (kv.memDbBuffer_Seek sample (Some [x61; x00]))) =
    Some [x61; x7a] /\
  option_map kv.memDbIter_Key (fst (kv.memDbBuffer_SeekReverse sample (Some [x62]))) =
    Some [x61; x7a] /\
  option_map kv.memDbIter_Key (fst (kv.memDbBuffer_SeekReverse sample None)) =
    Some [xff] /\
  option_map kv.memDbIter_Valid (fst (kv.memDbBuffer_SeekReverse sample (Some []))) =
    Some false /\
  kv.BufferStore_SaveTo 5 (store sample) tight =
    Some (Go.Returns
            (fst (kv.memDbBuffer_Set (fst (kv.memDbBuffer_Delete tight [x61])) [x61; x7a] [x02]),
             Some (Traced (Traced (Traced (Traced
               (Gen ErrTxnTooLarge "transaction too large, len:%d" 2))))))).
Proof. repeat split; vm_compute; reflexivity. Qed.
